(** * Host-bound operators of the scripting layer: a shallow embedding

    Two source files are embedded here.

    - [scripts/templates_py/operator_modal_draw.py]: the freehand drawing
      demo with its two module-level lists [strokes] and [redo_stack] and
      the module-level name [current_stroke].
    - [scripts/startup/bl_operators/grease_pencil.py]: the relative layer
      mask operator and the perspective warp operator.

    Python list objects have identity and are shared; the drawing demo
    relies on it ([strokes.append(current_stroke)] stores a reference, and
    later [current_stroke.append(...)] grows the stored object).  The model
    therefore keeps an explicit store of list objects addressed by
    references.

    Coordinates of the warp operator are Python floats in the source.  They
    are modelled as exact rationals ([Qc]); rounding is not modelled.  What
    is stated below about the warp operator is therefore about its control
    flow, its comparisons and its bookkeeping of objects; nothing is
    stated about the values a rounded computation returns.

    An uncaught Python exception is a result of its own ([Raise]) next to
    the returned status set, together with the state as mutated so far. *)

From Stdlib Require Import String.
From Stdlib Require Import List Arith Lia ZArith Bool Permutation.
From Stdlib Require Import QArith Qcanon Field.
Import ListNotations.

Set Implicit Arguments.

(** ** Python values shared by both files *)

Module Py.

(** Exceptions the embedded code can raise. *)
Inductive exn : Type :=
| ValueError
| IndexError
| TypeError
| AttributeError
| ReferenceError
| ZeroDivisionError
| LinAlgError.

(** What a call produces: a returned value or a raised exception. *)
Inductive result (A : Type) : Type :=
| Ok (a : A)
| Raise (e : exn).
Arguments Ok {A} a.
Arguments Raise {A} e.

(** [l.append(x)] *)
Definition append {A} (l : list A) (x : A) : list A := l ++ [x].

(** [l.pop()]: the last element and the remaining list, [None] on an
    empty list (where Python raises IndexError). *)
Definition pop {A} (l : list A) : option (A * list A) :=
  match rev l with
  | [] => None
  | x :: r => Some (x, rev r)
  end.

(** The call returned. *)
Definition is_ok {A} (r : result A) : bool :=
  match r with
  | Ok _ => true
  | Raise _ => false
  end.

(** Truth value of a list: [if l:] *)
Definition truthy {A} (l : list A) : bool :=
  match l with
  | [] => false
  | _ :: _ => true
  end.

End Py.

Import Py.

(** ** Host types both files use *)

Module Bpy.

(** The status sets an operator callback returns. *)
Inductive status : Type :=
| FINISHED
| CANCELLED
| RUNNING_MODAL
| PASS_THROUGH.

(** Levels of [self.report]. *)
Inductive report_level : Type :=
| INFO
| ERROR.

(** [event.type] and [event.value]; the constructors [OTHER_TYPE] and
    [OTHER_VALUE] stand for every identifier the callbacks do not test. *)
Inductive event_type : Type :=
| RIGHTMOUSE | ESC | LEFTMOUSE | MOUSEMOVE | KEY_Z | KEY_Y
| RET | NUMPAD_ENTER | OTHER_TYPE.

Inductive event_value : Type :=
| PRESS | RELEASE | NOTHING | OTHER_VALUE.

Record event : Type := {
  type : event_type;
  value : event_value;
  mouse_region_x : Z;
  mouse_region_y : Z
}.

Definition event_type_eqb (a b : event_type) : bool :=
  match a, b with
  | RIGHTMOUSE, RIGHTMOUSE | ESC, ESC | LEFTMOUSE, LEFTMOUSE
  | MOUSEMOVE, MOUSEMOVE | KEY_Z, KEY_Z | KEY_Y, KEY_Y
  | RET, RET | NUMPAD_ENTER, NUMPAD_ENTER | OTHER_TYPE, OTHER_TYPE => true
  | _, _ => false
  end.

Definition event_value_eqb (a b : event_value) : bool :=
  match a, b with
  | PRESS, PRESS | RELEASE, RELEASE | NOTHING, NOTHING
  | OTHER_VALUE, OTHER_VALUE => true
  | _, _ => false
  end.

End Bpy.

Import Bpy.

(** ** operator_modal_draw.py *)

Module OperatorModalDraw.

(** A screen-coordinate pair [(event.mouse_region_x, event.mouse_region_y)]. *)
Definition point : Type := (Z * Z)%type.

(** A reference to a Python list object holding a point sequence. *)
Definition ref : Type := nat.

(** The module globals and the part of the host the callbacks touch.
    [store] holds every stroke list object ever created, addressed by
    position; [strokes] and [redo_stack] hold references into it. *)
Record state : Type := {
  store : list (list point);
  strokes : list ref;
  redo_stack : list ref;
  current_stroke : option ref;
  draw_handlers : list nat;       (* SpaceView3D draw handlers, by id *)
  next_handler : nat;
  modal_handlers : nat;           (* window manager modal handlers added *)
  redraw_tagged : bool            (* context.area.tag_redraw() *)
}.

(** The module as loaded: three distinct empty lists. *)
Definition initial : state := {|
  store := [[]];
  strokes := [];
  redo_stack := [];
  current_stroke := Some 0%nat;
  draw_handlers := [];
  next_handler := 0;
  modal_handlers := 0;
  redraw_tagged := false
|}.

(** Contents of the list object behind a reference. *)
Definition contents (s : state) (r : ref) : option (list point) :=
  nth_error (store s) r.

(** Replace the object at position [r]. *)
Fixpoint store_set (h : list (list point)) (r : ref) (v : list point)
  : list (list point) :=
  match h, r with
  | [], _ => []
  | _ :: t, O => v :: t
  | x :: t, S r' => x :: store_set t r' v
  end.

Definition set_store (s : state) (h : list (list point)) : state :=
  {| store := h; strokes := strokes s; redo_stack := redo_stack s;
     current_stroke := current_stroke s; draw_handlers := draw_handlers s;
     next_handler := next_handler s; modal_handlers := modal_handlers s;
     redraw_tagged := redraw_tagged s |}.

Definition set_strokes (s : state) (l : list ref) : state :=
  {| store := store s; strokes := l; redo_stack := redo_stack s;
     current_stroke := current_stroke s; draw_handlers := draw_handlers s;
     next_handler := next_handler s; modal_handlers := modal_handlers s;
     redraw_tagged := redraw_tagged s |}.

Definition set_redo_stack (s : state) (l : list ref) : state :=
  {| store := store s; strokes := strokes s; redo_stack := l;
     current_stroke := current_stroke s; draw_handlers := draw_handlers s;
     next_handler := next_handler s; modal_handlers := modal_handlers s;
     redraw_tagged := redraw_tagged s |}.

Definition set_current_stroke (s : state) (c : option ref) : state :=
  {| store := store s; strokes := strokes s; redo_stack := redo_stack s;
     current_stroke := c; draw_handlers := draw_handlers s;
     next_handler := next_handler s; modal_handlers := modal_handlers s;
     redraw_tagged := redraw_tagged s |}.

Definition set_draw_handlers (s : state) (l : list nat) : state :=
  {| store := store s; strokes := strokes s; redo_stack := redo_stack s;
     current_stroke := current_stroke s; draw_handlers := l;
     next_handler := next_handler s; modal_handlers := modal_handlers s;
     redraw_tagged := redraw_tagged s |}.

(** [context.area.tag_redraw()] *)
Definition tag_redraw (s : state) : state :=
  {| store := store s; strokes := strokes s; redo_stack := redo_stack s;
     current_stroke := current_stroke s; draw_handlers := draw_handlers s;
     next_handler := next_handler s; modal_handlers := modal_handlers s;
     redraw_tagged := true |}.

(** The expression [[]]: a new empty list object; its reference is the
    next free position of the store. *)
Definition new_list (s : state) : ref * state :=
  (length (store s), set_store s (store s ++ [[]])).

(** [r.append(p)] on the list object behind [r]. *)
Definition list_append (s : state) (r : ref) (p : point) : state :=
  match contents s r with
  | Some l => set_store s (store_set (store s) r (Py.append l p))
  | None => s
  end.

(** [strokes.pop()] pushed onto [redo_stack], under the guard [if strokes:] *)
Definition undo_stroke (s : state) : state :=
  if Py.truthy (strokes s) then
    match Py.pop (strokes s) with
    | Some (r, rest) =>
        set_redo_stack (set_strokes s rest) (Py.append (redo_stack s) r)
    | None => s
    end
  else s.

(** [redo_stack.pop()] pushed onto [strokes], under the guard [if redo_stack:] *)
Definition redo_stroke (s : state) : state :=
  if Py.truthy (redo_stack s) then
    match Py.pop (redo_stack s) with
    | Some (r, rest) =>
        set_strokes (set_redo_stack s rest) (Py.append (strokes s) r)
    | None => s
    end
  else s.

Module ModalDrawOperator.

(** The operator instance: [self._handle] is set by [invoke]. *)
Record self : Type := { _handle : option nat }.

(** Modelled from the spec: the host's
    [bpy.types.SpaceView3D.draw_handler_remove(handle, 'WINDOW')] is not
    among the sources ("viewport draw-handler registration"); it takes the
    handle out of the registered ones and refuses a handle that is not
    registered. *)
Definition draw_handler_remove (s : state) (h : nat) : result state :=
  if existsb (Nat.eqb h) (draw_handlers s)
  then Ok (set_draw_handlers s (remove Nat.eq_dec h (draw_handlers s)))
  else Raise ValueError.

Definition modal (op : self) (s0 : state) (e : event)
  : result status * state :=
  let s := tag_redraw s0 in
  if event_type_eqb (type e) RIGHTMOUSE || event_type_eqb (type e) ESC then
    match _handle op with
    | None => (Raise AttributeError, s)
    | Some h =>
        match draw_handler_remove s h with
        | Ok s' => (Ok CANCELLED, s')
        | Raise x => (Raise x, s)
        end
    end
  else if event_type_eqb (type e) LEFTMOUSE then
    if event_value_eqb (value e) PRESS then
      let (r, s1) := new_list s in
      let s2 := set_current_stroke s1 (Some r) in
      let s3 := set_strokes s2 (Py.append (strokes s2) r) in
      (Ok RUNNING_MODAL, set_redo_stack s3 [])
    else if event_value_eqb (value e) RELEASE then
      let (r, s1) := new_list s in
      (Ok RUNNING_MODAL, set_current_stroke s1 (Some r))
    else (Ok RUNNING_MODAL, s)
  else
    match (if event_type_eqb (type e) MOUSEMOVE then current_stroke s
           else None) with
    | Some r =>
        (Ok RUNNING_MODAL,
         list_append s r (mouse_region_x e, mouse_region_y e))
    | None =>
        if event_type_eqb (type e) KEY_Z && event_value_eqb (value e) PRESS
        then (Ok RUNNING_MODAL, undo_stroke s)
        else if event_type_eqb (type e) KEY_Y
                && event_value_eqb (value e) PRESS
        then (Ok RUNNING_MODAL, redo_stroke s)
        else (Ok RUNNING_MODAL, s)
    end.

(** [invoke]: register the draw callback and become modal. *)
Definition invoke (s : state) : self * (result status * state) :=
  let h := next_handler s in
  let s' := {| store := store s; strokes := strokes s;
               redo_stack := redo_stack s;
               current_stroke := current_stroke s;
               draw_handlers := draw_handlers s ++ [h];
               next_handler := S h;
               modal_handlers := S (modal_handlers s);
               redraw_tagged := redraw_tagged s |} in
  ({| _handle := Some h |}, (Ok RUNNING_MODAL, s')).

(** The states the session can be in: [invoke] on the module as loaded,
    then any sequence of events delivered to [modal]. *)
Fixpoint run (op : self) (s : state) (es : list event) : state :=
  match es with
  | [] => s
  | e :: es' => run op (snd (modal op s e)) es'
  end.

End ModalDrawOperator.

(** The name [current_stroke] refers to a list object of the store. *)
Definition current_live (s : state) : Prop :=
  exists r pts, current_stroke s = Some r /\ contents s r = Some pts.

(** An event with the given type, value and mouse position. *)
Definition ev (t : event_type) (v : event_value) (mx my : Z) : event :=
  {| type := t; value := v; mouse_region_x := mx; mouse_region_y := my |}.

(** The session after [invoke] on the module as loaded. *)
Definition op0 : ModalDrawOperator.self :=
  fst (ModalDrawOperator.invoke initial).
Definition s0 : state := snd (snd (ModalDrawOperator.invoke initial)).

Module StrokeUndo.
Definition execute (s : state) : result status * state :=
  if Py.truthy (strokes s) then
    match Py.pop (strokes s) with
    | Some (r, rest) =>
        (Ok FINISHED,
         tag_redraw
           (set_redo_stack (set_strokes s rest) (Py.append (redo_stack s) r)))
    | None => (Raise IndexError, s)
    end
  else (Ok FINISHED, s).
End StrokeUndo.

Module StrokeRedo.
Definition execute (s : state) : result status * state :=
  if Py.truthy (redo_stack s) then
    match Py.pop (redo_stack s) with
    | Some (r, rest) =>
        (Ok FINISHED,
         tag_redraw
           (set_strokes (set_redo_stack s rest) (Py.append (strokes s) r)))
    | None => (Raise IndexError, s)
    end
  else (Ok FINISHED, s).
End StrokeRedo.

(** *** The session as a sequence of callbacks *)

(** What the host can deliver: an event to the running modal operator, or
    a press of one of the two panel buttons. *)
Inductive action : Type :=
| Event (e : event)
| UndoButton
| RedoButton.

Definition step (op : ModalDrawOperator.self) (s : state) (a : action)
  : state :=
  match a with
  | Event e => snd (ModalDrawOperator.modal op s e)
  | UndoButton => snd (StrokeUndo.execute s)
  | RedoButton => snd (StrokeRedo.execute s)
  end.

Definition run_actions (op : ModalDrawOperator.self) (s : state)
  (l : list action) : state :=
  fold_left (step op) l s.

(** An action that only moves a stroke between the two lists. *)
Definition history_action (a : action) : bool :=
  match a with
  | Event e =>
      (event_type_eqb (type e) KEY_Z || event_type_eqb (type e) KEY_Y)
      && event_value_eqb (value e) PRESS
  | UndoButton | RedoButton => true
  end.

(** The strokes in the order they were drawn: the visible ones, then the
    undone ones from the latest undo back. *)
Definition timeline (s : state) : list ref :=
  strokes s ++ rev (redo_stack s).

(** No list object is entered twice in [strokes] and [redo_stack], and
    every entry is an object of the store. *)
Definition refs_ok (s : state) : Prop :=
  NoDup (strokes s ++ redo_stack s) /\
  Forall (fun r => (r < length (store s))%nat) (strokes s ++ redo_stack s).

(** What a step can do to the two lists: nothing, start a stroke, or move
    the last entry of one list to the end of the other. *)
Inductive lists_effect (s s' : state) : Prop :=
| Kept :
    strokes s' = strokes s -> redo_stack s' = redo_stack s ->
    (length (store s) <= length (store s'))%nat ->
    lists_effect s s'
| Started :
    strokes s' = strokes s ++ [length (store s)] -> redo_stack s' = [] ->
    length (store s') = S (length (store s)) ->
    lists_effect s s'
| Undone : forall l x,
    strokes s = l ++ [x] -> strokes s' = l ->
    redo_stack s' = redo_stack s ++ [x] -> store s' = store s ->
    lists_effect s s'
| Redone : forall l x,
    redo_stack s = l ++ [x] -> redo_stack s' = l ->
    strokes s' = strokes s ++ [x] -> store s' = store s ->
    lists_effect s s'.

(** *** draw_callback_px *)

Inductive blend_mode : Type :=
| BLEND_NONE
| BLEND_ALPHA.

(** One [batch.draw(shader)]: the line strip and the GPU state it is drawn
    under. *)
Record batch : Type := {
  pos : list point;
  batch_blend : blend_mode;
  batch_line_width : Z;
  batch_color : option (Q * Q * Q * Q)
}.

(** The GPU state the callback sets, and the batches drawn so far. *)
Record gpu : Type := {
  blend : blend_mode;
  line_width : Z;
  color : option (Q * Q * Q * Q);
  drawn : list batch
}.

Definition blend_set (g : gpu) (b : blend_mode) : gpu :=
  {| blend := b; line_width := line_width g; color := color g;
     drawn := drawn g |}.

Definition line_width_set (g : gpu) (w : Z) : gpu :=
  {| blend := blend g; line_width := w; color := color g; drawn := drawn g |}.

Definition uniform_color (g : gpu) (c : Q * Q * Q * Q) : gpu :=
  {| blend := blend g; line_width := line_width g; color := Some c;
     drawn := drawn g |}.

(** [batch_for_shader(shader, 'LINE_STRIP', {'pos': l})] and its [draw]. *)
Definition draw_line_strip (g : gpu) (l : list point) : gpu :=
  {| blend := blend g; line_width := line_width g; color := color g;
     drawn := drawn g
              ++ [ {| pos := l; batch_blend := blend g;
                      batch_line_width := line_width g;
                      batch_color := color g |} ] |}.

(** The list behind a reference, as the callback reads it. *)
Definition deref (s : state) (r : ref) : list point :=
  match contents s r with
  | Some l => l
  | None => []
  end.

Definition draw_callback_px (g : gpu) (s : state) : gpu :=
  let g1 := blend_set g BLEND_ALPHA in
  let g2 := line_width_set g1 2 in
  let g3 := uniform_color g2 (0, 0, 0, 1 # 2)%Q in
  let g4 :=
    fold_left
      (fun g r =>
         if (2 <=? length (deref s r))%nat
         then draw_line_strip g (deref s r)
         else g)
      (strokes s) g3 in
  let g5 :=
    match current_stroke s with
    | Some r =>
        if Py.truthy (deref s r) then draw_line_strip g4 (deref s r) else g4
    | None => g4
    end in
  blend_set (line_width_set g5 1) BLEND_NONE.

(** The list objects one call of the callback draws, in order. *)
Definition drawn_refs (s : state) : list ref :=
  filter (fun r => (2 <=? length (deref s r))%nat) (strokes s)
  ++ match current_stroke s with
     | Some r => if Py.truthy (deref s r) then [r] else []
     | None => []
     end.

(** The batch the callback draws for the list object [r]. *)
Definition stroke_batch (s : state) (r : ref) : batch :=
  {| pos := deref s r; batch_blend := BLEND_ALPHA; batch_line_width := 2;
     batch_color := Some (0, 0, 0, 1 # 2)%Q |}.

(** The pair a MOUSEMOVE event appends. *)
Definition position (e : event) : point :=
  (mouse_region_x e, mouse_region_y e).

End OperatorModalDraw.

(** ** Exact linear algebra standing for numpy and mathutils *)

Module LinAlg.

Open Scope Qc_scope.

Abbreviation vector := (list Qc).
Abbreviation matrix := (list (list Qc)).

Definition Qc_eqb (a b : Qc) : bool := Qeq_bool a b.

(** Python's [a / b] on floats: a zero divisor raises. *)
Definition truediv (a b : Qc) : result Qc :=
  if Qc_eqb b 0 then Raise ZeroDivisionError else Ok (a / b).

Fixpoint dot (r X : vector) : Qc :=
  match r, X with
  | a :: r', x :: X' => a * x + dot r' X'
  | _, _ => 0
  end.

(** One equation: the coefficients and the right-hand side. *)
Abbreviation equation := (list Qc * Qc)%type.

(** The first equation whose leading coefficient is not zero, and the
    others in their order. *)
Fixpoint find_pivot (sys : list equation)
  : option (equation * list equation) :=
  match sys with
  | [] => None
  | r :: t =>
      if Qc_eqb (hd 0 (fst r)) 0 then
        match find_pivot t with
        | Some (p, rest) => Some (p, r :: rest)
        | None => None
        end
      else Some (r, t)
  end.

(** [r - c * p], coefficient by coefficient. *)
Fixpoint axpy (c : Qc) (r p : list Qc) : list Qc :=
  match r, p with
  | a :: r', b :: p' => (a - c * b) :: axpy c r' p'
  | _, _ => []
  end.

(** Remove the leading unknown of [r] with the pivot equation [p]. *)
Definition eliminate (p r : equation) : equation :=
  let c := hd 0 (fst r) / hd 0 (fst p) in
  (axpy c (tl (fst r)) (tl (fst p)), snd r - c * snd p).

(** Gaussian elimination on [n] unknowns with back substitution; [None]
    when no pivot is left for some unknown. *)
Fixpoint gauss (n : nat) (sys : list equation) : option vector :=
  match n with
  | O => Some []
  | S n' =>
      match find_pivot sys with
      | None => None
      | Some (p, rest) =>
          match gauss n' (map (eliminate p) rest) with
          | None => None
          | Some X' =>
              Some ((snd p - dot (tl (fst p)) X') / hd 0 (fst p) :: X')
          end
      end
  end.

(** [A] is a square array with as many rows as [B] has entries. *)
Definition square (A : matrix) (B : vector) : bool :=
  negb (Nat.eqb (length A) 0)
  && forallb (fun r => Nat.eqb (length r) (length A)) A
  && Nat.eqb (length B) (length A).

(** [np.linalg.solve(A, B)], idealised: LinAlgError when [A] is not a
    square array with as many rows as [B] has entries, or when an exact
    elimination finds no pivot; the exact solution otherwise.  The library
    eliminates in binary64 with partial pivoting, so the values it returns,
    and whether it finds a system singular, agree with this definition only
    where its elimination is exact.  The statements below use the check of
    the shape, and the system of a single point, whose entries are 0, 1
    and -1 and whose elimination is exact. *)
Definition solve (A : matrix) (B : vector) : result vector :=
  if square A B then
    match gauss (length A) (combine A B) with
    | Some X => Ok X
    | None => Raise LinAlgError
    end
  else Raise LinAlgError.

(** [mathutils.Vector] with three components. *)
Record Vector : Type := { x : Qc; y : Qc; z : Qc }.

(** [mathutils.Matrix] with three rows. *)
Record Matrix : Type := { row0 : Vector; row1 : Vector; row2 : Vector }.

Definition vdot (a b : Vector) : Qc := x a * x b + y a * y b + z a * z b.

(** Modelled from the spec: [M @ v] of the host's [mathutils], which is
    not among the sources: the product of a 3x3 matrix with a column. *)
Definition matmul (M : Matrix) (v : Vector) : Vector :=
  {| x := vdot (row0 M) v; y := vdot (row1 M) v; z := vdot (row2 M) v |}.

(** [min(g)] and [max(g)] over a generator: ValueError when it is empty;
    the first extremal element otherwise. *)
Definition py_min (l : list Qc) : result Qc :=
  match l with
  | [] => Raise ValueError
  | a :: t => Ok (fold_left (fun m b : Qc => if Qle_bool m b then m else b) t a)
  end.

Definition py_max (l : list Qc) : result Qc :=
  match l with
  | [] => Raise ValueError
  | a :: t => Ok (fold_left (fun m b : Qc => if Qle_bool b m then m else b) t a)
  end.

End LinAlg.

(** ** grease_pencil.py *)

Module GreasePencil.

Import LinAlg.
Open Scope Qc_scope.

(** A message passed to [self.report]. *)
Definition report : Type := (report_level * string)%type.

(** *** GREASE_PENCIL_OT_relative_layer_mask_add *)

(** The operator property [mode]; the host admits the two items only. *)
Inductive mode_item : Type :=
| ABOVE
| BELOW.

(** A node of the layer tree next to the active layer: a layer or a layer
    group, each with its name. *)
Inductive tree_node : Type :=
| GreasePencilLayer (name : string)
| GreasePencilLayerGroup (name : string).

(** The active layer as [execute] sees it; [mask_layers] is the collection
    of its masks, looked up by name. *)
Record layer : Type := {
  next_node : option tree_node;
  prev_node : option tree_node;
  mask_layers : list string;
  use_masks : bool
}.

Definition name_in (n : string) (l : list string) : bool :=
  existsb (String.eqb n) l.

(** Modelled from the spec: the host operator
    [bpy.ops.grease_pencil.layer_mask_add(name=...)] is not among the
    sources; the spec calls it "mask list mutation", and it is taken to add
    a mask with the given name to the active layer's masks. *)
Definition layer_mask_add (name : string) (l : layer) : layer :=
  {| next_node := next_node l; prev_node := prev_node l;
     mask_layers := Py.append (mask_layers l) name;
     use_masks := use_masks l |}.

Definition set_use_masks (l : layer) (b : bool) : layer :=
  {| next_node := next_node l; prev_node := prev_node l;
     mask_layers := mask_layers l; use_masks := b |}.

(** [context.active_object] as the two [poll] methods and [execute] read
    it: its [type], the two editable flags and the active layer of its
    data. *)
Inductive object_type : Type :=
| GREASEPENCIL
| OTHER_OBJECT.

Record active_object : Type := {
  is_editable : bool;
  otype : object_type;
  layers_active : option layer;     (* obj.data.layers.active *)
  data_is_editable : bool           (* obj.data.is_editable *)
}.

Definition is_gp (o : active_object) : bool :=
  match otype o with
  | GREASEPENCIL => true
  | OTHER_OBJECT => false
  end.

Definition is_not_none {A} (o : option A) : bool :=
  match o with
  | Some _ => true
  | None => false
  end.

Definition set_layers_active (o : active_object) (l : option layer)
  : active_object :=
  {| is_editable := is_editable o; otype := otype o; layers_active := l;
     data_is_editable := data_is_editable o |}.

Module GREASE_PENCIL_OT_relative_layer_mask_add.

Record self : Type := { mode : mode_item; reports : list report }.

Definition do_report (s : self) (lv : report_level) (msg : string) : self :=
  {| mode := mode s; reports := Py.append (reports s) (lv, msg) |}.

(** [execute]; [active_layer] is [context.active_object.data.layers.active],
    which [poll] has checked not to be None. *)
Definition execute (s : self) (active_layer : layer)
  : result status * (self * layer) :=
  let masking_layer :=
    match mode s with
    | ABOVE => next_node active_layer
    | BELOW => prev_node active_layer
    end in
  match masking_layer with
  | None | Some (GreasePencilLayerGroup _) =>
      (Ok CANCELLED, (do_report s ERROR "No layer found", active_layer))
  | Some (GreasePencilLayer name) =>
      if name_in name (mask_layers active_layer) then
        (Ok CANCELLED,
         (do_report s ERROR "Layer is already added as a mask", active_layer))
      else
        (Ok FINISHED,
         (s, set_use_masks (layer_mask_add name active_layer) true))
  end.

(** [poll]: the chain of [and]s, read as a truth value. *)
Definition poll (ctx : option active_object) : bool :=
  match ctx with
  | None => false
  | Some obj =>
      is_editable obj && is_gp obj && is_not_none (layers_active obj)
      && data_is_editable obj
  end.

(** [execute] from the context: the two lines that fetch the active layer,
    then the body.  A missing object, data without layers, or a missing
    active layer makes the attribute access raise AttributeError. *)
Definition execute_in (s : self) (ctx : option active_object)
  : result status * (self * option active_object) :=
  match ctx with
  | None => (Raise AttributeError, (s, ctx))
  | Some obj =>
      if is_gp obj then
        match layers_active obj with
        | None => (Raise AttributeError, (s, ctx))
        | Some active_layer =>
            let '(r, (s', l')) := execute s active_layer in
            (r, (s', Some (set_layers_active obj (Some l'))))
        end
      else (Raise AttributeError, (s, ctx))
  end.

End GREASE_PENCIL_OT_relative_layer_mask_add.

(** *** GREASE_PENCIL_OT_perspective_warp *)

(** A stroke point; only its coordinate vector [co] is read and written. *)
Record GPPoint : Type := { co : Vector }.

Record GPStroke : Type := { points : list GPPoint }.

Record GPFrame : Type := { strokes : list GPStroke }.

(** An empty object created as a warp handle. *)
Record Object : Type := {
  name : string;
  empty_display_size : Qc;
  empty_display_type : string;
  location : Vector
}.

(** The part of the host the operator touches.  [data_objects] is
    [bpy.data.objects]: an object is identified by its position, and a
    removed object leaves [None] behind, so that identities are never
    reused.  [frame] is [obj.data.layers.active.frames.active]. *)
Record context : Type := {
  frame : option GPFrame;
  data_objects : list (option Object);
  collection_objects : list nat;
  view_layer_updates : nat;
  modal_handlers : nat
}.

Definition set_frame (c : context) (f : option GPFrame) : context :=
  {| frame := f; data_objects := data_objects c;
     collection_objects := collection_objects c;
     view_layer_updates := view_layer_updates c;
     modal_handlers := modal_handlers c |}.

(** The empty object [invoke] makes for the corner [co]:
    [bpy.data.objects.new("WarpHandle", None)] with its three attribute
    assignments.  The host's object model (objects, collections) is not
    among the sources; an object is modelled by the attributes the
    operator sets and reads. *)
Definition warp_handle (co : Qc * Qc) : Object :=
  {| name := "WarpHandle";
     empty_display_size := Q2Qc (1 # 10);
     empty_display_type := "PLAIN_AXES";
     location := {| x := fst co; y := snd co; z := 0 |} |}.

(** Creating the object and [context.collection.objects.link(empty)]. *)
Definition new_handle (c : context) (co : Qc * Qc) : nat * context :=
  let empty := warp_handle co in
  let id := length (data_objects c) in
  (id,
   {| frame := frame c;
      data_objects := data_objects c ++ [Some empty];
      collection_objects := collection_objects c ++ [id];
      view_layer_updates := view_layer_updates c;
      modal_handlers := modal_handlers c |}).

Definition lookup_object (c : context) (h : nat) : option Object :=
  match nth_error (data_objects c) h with
  | Some (Some o) => Some o
  | _ => None
  end.

Fixpoint clear_slot (l : list (option Object)) (h : nat)
  : list (option Object) :=
  match l, h with
  | [], _ => []
  | _ :: t, O => None :: t
  | o :: t, S h' => o :: clear_slot t h'
  end.

(** Modelled from the spec: the host's
    [bpy.data.objects.remove(h, do_unlink=True)] is not among the sources;
    it takes the object out of the data and out of the collection, and a
    reference to an object that is no longer there raises ReferenceError. *)
Definition remove_object (c : context) (h : nat) : result context :=
  match lookup_object c h with
  | Some _ =>
      Ok {| frame := frame c;
            data_objects := clear_slot (data_objects c) h;
            collection_objects := remove Nat.eq_dec h (collection_objects c);
            view_layer_updates := view_layer_updates c;
            modal_handlers := modal_handlers c |}
  | None => Raise ReferenceError
  end.

(** [w = mat @ Vector((p.co.x, p.co.y, 1.0))] *)
Definition homogeneous (mat : Matrix) (p : GPPoint) : Vector :=
  matmul mat {| x := x (co p); y := y (co p); z := 1 |}.

(** The point [finish] leaves in place of [p] where the division
    returns. *)
Definition warp_point (mat : Matrix) (p : GPPoint) : GPPoint :=
  {| co := {| x := x (homogeneous mat p) / z (homogeneous mat p);
              y := y (homogeneous mat p) / z (homogeneous mat p);
              z := z (co p) |} |}.

Module GREASE_PENCIL_OT_perspective_warp.

Record self : Type := {
  _handles : option (list nat);
  _src_bbox : option (list (Qc * Qc));
  _confirm : bool;
  reports : list report
}.

(** The class attributes before [invoke]. *)
Definition fresh : self :=
  {| _handles := None; _src_bbox := None; _confirm := false; reports := [] |}.

Definition do_report (s : self) (lv : report_level) (msg : string) : self :=
  {| _handles := _handles s; _src_bbox := _src_bbox s;
     _confirm := _confirm s; reports := Py.append (reports s) (lv, msg) |}.

Definition set_confirm (s : self) (b : bool) : self :=
  {| _handles := _handles s; _src_bbox := _src_bbox s;
     _confirm := b; reports := reports s |}.

Definition set_handles (s : self) (h : option (list nat)) : self :=
  {| _handles := h; _src_bbox := _src_bbox s;
     _confirm := _confirm s; reports := reports s |}.

(** The two rows of [A] for one pair of points. *)
Definition rows_A (sd : (Qc * Qc) * (Qc * Qc)) : matrix :=
  let '((x, y), (u, v)) := sd in
  [ [x; y; 1; 0; 0; 0; - u * x; - u * y];
    [0; 0; 0; x; y; 1; - v * x; - v * y] ].

Definition rows_B (sd : (Qc * Qc) * (Qc * Qc)) : vector :=
  let '(_, (u, v)) := sd in [u; v].

(** The arrays the loop over [zip(src, dst)] builds. *)
Definition assemble_A (src dst : list (Qc * Qc)) : matrix :=
  flat_map rows_A (combine src dst).

Definition assemble_B (src dst : list (Qc * Qc)) : vector :=
  flat_map rows_B (combine src dst).

Definition compute_matrix (src dst : list (Qc * Qc)) : result Matrix :=
  match solve (assemble_A src dst) (assemble_B src dst) with
  | Raise e => Raise e
  | Ok X =>
      match X with
      | X0 :: X1 :: X2 :: X3 :: X4 :: X5 :: X6 :: X7 :: _ =>
          Ok {| row0 := {| x := X0; y := X1; z := X2 |};
                row1 := {| x := X3; y := X4; z := X5 |};
                row2 := {| x := X6; y := X7; z := 1 |} |}
      | _ => Raise IndexError
      end
  end.

(** The loop of [invoke] that creates one handle for each corner. *)
Fixpoint make_handles (c : context) (hs : list nat) (bbox : list (Qc * Qc))
  : list nat * context :=
  match bbox with
  | [] => (hs, c)
  | co :: t =>
      let (h, c') := new_handle c co in
      make_handles c' (Py.append hs h) t
  end.

Definition invoke (s : self) (c : context)
  : result status * (self * context) :=
  match frame c with
  | None => (Ok CANCELLED, (do_report s ERROR "No stroke available", c))
  | Some f =>
      if Nat.eqb (length (strokes f)) 0 then
        (Ok CANCELLED, (do_report s ERROR "No stroke available", c))
      else if Nat.ltb 1 (length (strokes f)) then
        (Ok CANCELLED,
         (do_report s ERROR "Only one stroke allowed per layer", c))
      else
        match strokes f with
        | [] => (Raise IndexError, (s, c))
        | stroke :: _ =>
            let xs := map (fun p => x (co p)) (points stroke) in
            let ys := map (fun p => y (co p)) (points stroke) in
            match py_min xs, py_max xs, py_min ys, py_max ys with
            | Ok min_x, Ok max_x, Ok min_y, Ok max_y =>
                let bbox := [ (min_x, min_y); (max_x, min_y);
                              (max_x, max_y); (min_x, max_y) ] in
                let (hs, c1) := make_handles c [] bbox in
                let c2 :=
                  {| frame := frame c1; data_objects := data_objects c1;
                     collection_objects := collection_objects c1;
                     view_layer_updates := S (view_layer_updates c1);
                     modal_handlers := S (modal_handlers c1) |} in
                let s1 :=
                  {| _handles := Some hs; _src_bbox := Some bbox;
                     _confirm := _confirm s; reports := reports s |} in
                (Ok RUNNING_MODAL,
                 (do_report s1 INFO "Move handles and press Enter to confirm",
                  c2))
            | Raise e, _, _, _ => (Raise e, (s, c))
            | _, Raise e, _, _ => (Raise e, (s, c))
            | _, _, Raise e, _ => (Raise e, (s, c))
            | _, _, _, Raise e => (Raise e, (s, c))
            end
        end
  end.

(** [[(h.location.x, h.location.y) for h in self._handles]] *)
Fixpoint handle_locations (c : context) (hs : list nat)
  : result (list (Qc * Qc)) :=
  match hs with
  | [] => Ok []
  | h :: t =>
      match lookup_object c h with
      | None => Raise ReferenceError
      | Some o =>
          match handle_locations c t with
          | Raise e => Raise e
          | Ok l => Ok ((x (location o), y (location o)) :: l)
          end
      end
  end.

(** The loop of [finish] over the stroke points.  An exception leaves the
    points assigned so far as they are. *)
Fixpoint warp_points (mat : Matrix) (pts : list GPPoint)
  : result unit * list GPPoint :=
  match pts with
  | [] => (Ok tt, [])
  | p :: t =>
      let vec := matmul mat {| x := x (co p); y := y (co p); z := 1 |} in
      match truediv (x vec) (z vec) with
      | Raise e => (Raise e, p :: t)
      | Ok nx =>
          let p1 := {| co := {| x := nx; y := y (co p); z := z (co p) |} |} in
          match truediv (y vec) (z vec) with
          | Raise e => (Raise e, p1 :: t)
          | Ok ny =>
              let p2 := {| co := {| x := nx; y := ny; z := z (co p1) |} |} in
              let (r, t') := warp_points mat t in
              (r, p2 :: t')
          end
      end
  end.

(** The body of [if self._confirm:] in [finish]. *)
Definition apply_warp (s : self) (c : context) : result unit * context :=
  match _handles s with
  | None => (Raise TypeError, c)
  | Some hs =>
      match handle_locations c hs with
      | Raise e => (Raise e, c)
      | Ok dst =>
          match _src_bbox s with
          | None => (Raise TypeError, c)
          | Some src =>
              match compute_matrix src dst with
              | Raise e => (Raise e, c)
              | Ok mat =>
                  match frame c with
                  | None => (Raise AttributeError, c)
                  | Some f =>
                      match strokes f with
                      | [] => (Raise IndexError, c)
                      | stroke :: rest =>
                          let (r, pts) := warp_points mat (points stroke) in
                          (r,
                           set_frame c
                             (Some {| strokes :=
                                        {| points := pts |} :: rest |}))
                      end
                  end
              end
          end
      end
  end.

(** The loop of [finish] that removes the handles. *)
Fixpoint remove_handles (c : context) (hs : list nat)
  : result unit * context :=
  match hs with
  | [] => (Ok tt, c)
  | h :: t =>
      match remove_object c h with
      | Raise e => (Raise e, c)
      | Ok c' => remove_handles c' t
      end
  end.

Definition finish (s : self) (c : context)
  : result status * (self * context) :=
  let (r, c1) := if _confirm s then apply_warp s c else (Ok tt, c) in
  match r with
  | Raise e => (Raise e, (s, c1))
  | Ok _ =>
      match _handles s with
      | None => (Raise TypeError, (s, c1))
      | Some hs =>
          let (r2, c2) := remove_handles c1 hs in
          match r2 with
          | Raise e => (Raise e, (s, c2))
          | Ok _ => (Ok FINISHED, (set_handles s None, c2))
          end
      end
  end.

Definition modal (s : self) (c : context) (e : event)
  : result status * (self * context) :=
  if event_type_eqb (type e) RET || event_type_eqb (type e) NUMPAD_ENTER then
    finish (set_confirm s true) c
  else if event_type_eqb (type e) ESC then
    finish (set_confirm s false) c
  else (Ok PASS_THROUGH, (s, c)).

(** [poll] *)
Definition poll (ctx : option active_object) : bool :=
  match ctx with
  | None => false
  | Some obj =>
      if negb (is_gp obj) then false
      else is_not_none (layers_active obj) && data_is_editable obj
  end.

End GREASE_PENCIL_OT_perspective_warp.

End GreasePencil.

(** Short names for the warp operator next to the drawing demo. *)
Abbreviation warp_self := GreasePencil.GREASE_PENCIL_OT_perspective_warp.self.
Abbreviation warp_fresh := GreasePencil.GREASE_PENCIL_OT_perspective_warp.fresh.
Abbreviation warp_invoke :=
  GreasePencil.GREASE_PENCIL_OT_perspective_warp.invoke.
Abbreviation warp_modal := GreasePencil.GREASE_PENCIL_OT_perspective_warp.modal.
Abbreviation warp_handles :=
  GreasePencil.GREASE_PENCIL_OT_perspective_warp._handles.
Abbreviation warp_set_handles :=
  GreasePencil.GREASE_PENCIL_OT_perspective_warp.set_handles.
Abbreviation warp_set_confirm :=
  GreasePencil.GREASE_PENCIL_OT_perspective_warp.set_confirm.
Abbreviation lookup_object := GreasePencil.lookup_object.

(** ** Concrete inputs *)

Module Samples.

Import LinAlg GreasePencil GREASE_PENCIL_OT_perspective_warp.

(** An integer as a coordinate. *)
Definition qc (n : Z) : Qc := Q2Qc (inject_Z n).

Definition pt (a b : Z) : GPPoint :=
  {| co := {| x := qc a; y := qc b; z := 0%Qc |} |}.

(** A context whose active frame holds the given strokes, with no object. *)
Definition ctx_of (sts : list GPStroke) : context :=
  {| frame := Some {| strokes := sts |};
     data_objects := [];
     collection_objects := [];
     view_layer_updates := 0;
     modal_handlers := 0 |}.

(** One stroke without points. *)
Definition ctx_empty_stroke : context := ctx_of [ {| points := [] |} ].

(** One stroke with a single point: its bounding box has no extent. *)
Definition ctx_one_point : context := ctx_of [ {| points := [pt 1 1] |} ].

(** One stroke along the diagonal of the unit square. *)
Definition ctx_diagonal : context :=
  ctx_of [ {| points := [pt 0 0; pt 1 1] |} ].

Definition key (t : event_type) : event :=
  {| type := t; value := PRESS; mouse_region_x := 0; mouse_region_y := 0 |}.

(** The corners of the unit square. *)
Definition src_square : list (Qc * Qc) :=
  [ (qc 1, qc 0); (qc 0, qc 0); (qc 0, qc 1); (qc 1, qc 1) ].

(** The operator after [invoke] on the unit square, and a context in which
    its four handles have been dragged to the corners of the rectangle
    from [(2, 3)] to [(6, 5)]. *)
Definition self_unit_square : self :=
  {| _handles := Some [0; 1; 2; 3]%nat;
     _src_bbox := Some [ (qc 0, qc 0); (qc 1, qc 0); (qc 1, qc 1); (qc 0, qc 1) ];
     _confirm := false;
     reports := [] |}.

Definition ctx_dragged : context :=
  {| frame := Some {| strokes := [ {| points := [pt 0 0; pt 1 1] |} ] |};
     data_objects :=
       map (fun co => Some (warp_handle co))
           [ (qc 2, qc 3); (qc 6, qc 3); (qc 6, qc 5); (qc 2, qc 5) ];
     collection_objects := [0; 1; 2; 3]%nat;
     view_layer_updates := 1;
     modal_handlers := 1 |}.

End Samples.

(** ** Predicates of the statements *)

Module Predicates.

Import LinAlg GreasePencil GREASE_PENCIL_OT_perspective_warp.
Open Scope Qc_scope.

(** Every handle in [hs] is an object of the context, and no handle occurs
    twice. *)
Definition handles_live (c : context) (hs : list nat) : Prop :=
  NoDup hs /\ forall h, In h hs -> lookup_object c h <> None.

(** The corners of a bounding box in the order of [invoke]. *)
Definition corners (min_x max_x min_y max_y : Qc) : list (Qc * Qc) :=
  [ (min_x, min_y); (max_x, min_y); (max_x, max_y); (min_x, max_y) ].


(** Every object the collection names is an object of the data. *)
Definition collection_ok (c : context) : Prop :=
  forall h, In h (collection_objects c) -> (h < length (data_objects c))%nat.

End Predicates.

(** * Properties *)

(** ** Python lists *)

Section PyLists.

Context {A : Type}.
Implicit Types (l r : list A) (x : A).

Lemma pop_append l x : Py.pop (Py.append l x) = Some (x, l).
Proof.
  unfold Py.pop, Py.append. rewrite rev_app_distr. simpl.
  now rewrite rev_involutive.
Qed.

Lemma pop_some l r x : Py.pop l = Some (x, r) -> l = Py.append r x.
Proof.
  unfold Py.pop, Py.append. intros H.
  destruct (rev l) as [|y t] eqn:E; [discriminate|].
  inversion H; subst.
  rewrite <- (rev_involutive l), E. reflexivity.
Qed.

Lemma pop_none l : Py.pop l = None -> l = [].
Proof.
  unfold Py.pop. intros H.
  destruct (rev l) as [|y t] eqn:E; [|discriminate].
  rewrite <- (rev_involutive l), E. reflexivity.
Qed.

Lemma truthy_true l : l <> [] -> Py.truthy l = true.
Proof. destruct l; [congruence | reflexivity]. Qed.

Lemma truthy_pop l : Py.truthy l = true -> exists x r, Py.pop l = Some (x, r).
Proof.
  intros H. destruct (Py.pop l) as [[x r]|] eqn:E.
  - eauto.
  - apply pop_none in E. subst. discriminate.
Qed.

Lemma truthy_append l x : Py.truthy (Py.append l x) = true.
Proof. destruct l; reflexivity. Qed.

End PyLists.

(** ** The drawing demo *)

Module DrawFacts.

Import OperatorModalDraw.

Lemma nth_error_store_set_eq h r v old :
  nth_error h r = Some old -> nth_error (store_set h r v) r = Some v.
Proof.
  revert r. induction h as [|a h IH]; intros [|r] H; simpl in *;
    try discriminate; auto.
Qed.

Lemma nth_error_store_set_ne h r r' v :
  r' <> r -> nth_error (store_set h r v) r' = nth_error h r'.
Proof.
  revert r r'. induction h as [|a h IH]; intros [|r] [|r'] H; simpl;
    try reflexivity; try congruence.
  apply IH. congruence.
Qed.

Lemma nonempty_append (l : list ref) :
  l <> [] -> exists l' r, l = Py.append l' r.
Proof.
  intros H. apply truthy_true in H. apply truthy_pop in H.
  destruct H as (r & l' & E).
  exists l', r. now apply pop_some.
Qed.

Import ModalDrawOperator.

(** C3: with [strokes] non-empty, StrokeUndo.execute followed by
    StrokeRedo.execute returns FINISHED twice and restores [strokes],
    [redo_stack] and every list object to their original contents; with
    [redo_stack] non-empty, StrokeRedo.execute followed by
    StrokeUndo.execute does the same. *)
Theorem undo_redo_identity (s : state) :
  (strokes s <> [] ->
   let u := StrokeUndo.execute s in
   let r := StrokeRedo.execute (snd u) in
   fst u = Ok FINISHED /\ fst r = Ok FINISHED /\
   strokes (snd r) = strokes s /\
   redo_stack (snd r) = redo_stack s /\
   store (snd r) = store s)
  /\
  (redo_stack s <> [] ->
   let r := StrokeRedo.execute s in
   let u := StrokeUndo.execute (snd r) in
   fst r = Ok FINISHED /\ fst u = Ok FINISHED /\
   strokes (snd u) = strokes s /\
   redo_stack (snd u) = redo_stack s /\
   store (snd u) = store s).
Proof.
  split; intros H; apply nonempty_append in H; destruct H as (l & x & E).
  - unfold StrokeUndo.execute. rewrite E, truthy_append, pop_append.
    cbn [fst snd]. unfold StrokeRedo.execute. cbn [redo_stack tag_redraw
      set_redo_stack set_strokes strokes store].
    rewrite truthy_append, pop_append. cbn. auto.
  - unfold StrokeRedo.execute. rewrite E, truthy_append, pop_append.
    cbn [fst snd]. unfold StrokeUndo.execute. cbn [redo_stack tag_redraw
      set_redo_stack set_strokes strokes store].
    rewrite truthy_append, pop_append. cbn. auto.
Qed.

Lemma undo_redo_identity_witness :
  let s := run op0 s0 [ev LEFTMOUSE PRESS 0 0; ev MOUSEMOVE NOTHING 5 7;
                        ev LEFTMOUSE RELEASE 5 7; ev LEFTMOUSE PRESS 1 1;
                        ev KEY_Z PRESS 1 1] in
  (strokes (snd (StrokeRedo.execute (snd (StrokeUndo.execute s)))) = [1%nat]
   /\ redo_stack (snd (StrokeRedo.execute (snd (StrokeUndo.execute s))))
      = [3%nat])
  /\
  (strokes (snd (StrokeUndo.execute (snd (StrokeRedo.execute s)))) = [1%nat]
   /\ redo_stack (snd (StrokeUndo.execute (snd (StrokeRedo.execute s))))
      = [3%nat]).
Proof.
  intros s.
  destruct (undo_redo_identity s) as [H1 H2].
  split.
  - destruct H1 as (_ & _ & A & B & _); [discriminate|].
    split; [rewrite A | rewrite B]; reflexivity.
  - destruct H2 as (_ & _ & A & B & _); [discriminate|].
    split; [rewrite A | rewrite B]; reflexivity.
Defined.

(** C9: StrokeUndo.execute with [strokes] empty and StrokeRedo.execute with
    [redo_stack] empty return FINISHED and leave the whole state, so both
    lists, unchanged; and for every state both return FINISHED. *)
Theorem undo_redo_never_fail (s : state) :
  (strokes s = [] -> StrokeUndo.execute s = (Ok FINISHED, s)) /\
  (redo_stack s = [] -> StrokeRedo.execute s = (Ok FINISHED, s)) /\
  fst (StrokeUndo.execute s) = Ok FINISHED /\
  fst (StrokeRedo.execute s) = Ok FINISHED.
Proof.
  repeat split.
  - intros E. unfold StrokeUndo.execute. now rewrite E.
  - intros E. unfold StrokeRedo.execute. now rewrite E.
  - unfold StrokeUndo.execute.
    destruct (Py.truthy (strokes s)) eqn:T; [|reflexivity].
    apply truthy_pop in T. destruct T as (x & r & E). now rewrite E.
  - unfold StrokeRedo.execute.
    destruct (Py.truthy (redo_stack s)) eqn:T; [|reflexivity].
    apply truthy_pop in T. destruct T as (x & r & E). now rewrite E.
Qed.

Lemma undo_redo_never_fail_witness :
  StrokeUndo.execute s0 = (Ok FINISHED, s0) /\
  StrokeRedo.execute s0 = (Ok FINISHED, s0).
Proof.
  destruct (undo_redo_never_fail s0) as (H1 & H2 & _).
  split; [apply H1 | apply H2]; reflexivity.
Defined.

(** [undo_stroke] never shortens [redo_stack]. *)
Lemma undo_stroke_redo_stack s :
  redo_stack (undo_stroke s) = redo_stack s \/
  exists r, redo_stack (undo_stroke s) = Py.append (redo_stack s) r.
Proof.
  unfold undo_stroke. destruct (Py.truthy (strokes s)); [|now left].
  destruct (Py.pop (strokes s)) as [[r rest]|]; [|now left].
  right. exists r. reflexivity.
Qed.

(** C2: a modal step on LEFTMOUSE with value PRESS returns RUNNING_MODAL
    and leaves [redo_stack] empty, from every state.  A step that turns a
    non-empty [redo_stack] into an empty one is that step or a Y press,
    whose pop took the only entry and pushed it onto [strokes].  A step
    that changes [redo_stack] at all is a LEFTMOUSE press, a Z press or a
    Y press. *)
Theorem redo_stack_cleared_on_press (op : self) (s : state) (e : event) :
  let s' := snd (modal op s e) in
  (type e = LEFTMOUSE -> value e = PRESS ->
   fst (modal op s e) = Ok RUNNING_MODAL /\ redo_stack s' = []) /\
  (redo_stack s <> [] -> redo_stack s' = [] ->
   (type e = LEFTMOUSE /\ value e = PRESS) \/
   (type e = KEY_Y /\ value e = PRESS /\
    exists r, redo_stack s = [r] /\ strokes s' = Py.append (strokes s) r)) /\
  (redo_stack s' <> redo_stack s ->
   value e = PRESS /\
   (type e = LEFTMOUSE \/ type e = KEY_Z \/ type e = KEY_Y)).
Proof.
  destruct e as [t v mx my]. cbn [type value].
  split; [|split].
  - intros -> ->. cbn. auto.
  - intros NE. unfold modal. cbn [type value mouse_region_x mouse_region_y].
    destruct t; cbn [event_type_eqb orb andb];
      try (destruct (_handle op) as [h|]; [unfold draw_handler_remove;
             destruct (existsb _ _)|]; cbn; congruence);
      try (cbn; congruence).
    + (* LEFTMOUSE *)
      destruct v; cbn; try congruence. auto.
    + (* MOUSEMOVE *)
      cbn [tag_redraw current_stroke].
      destruct (current_stroke s) as [r|]; cbn [snd].
      * unfold list_append, contents. cbn [tag_redraw store].
        destruct (nth_error (store s) r); cbn; congruence.
      * cbn. congruence.
    + (* KEY_Z *)
      destruct v; cbn [event_value_eqb snd]; try (cbn; congruence).
      intros E.
      destruct (undo_stroke_redo_stack (tag_redraw s)) as [H|[r H]];
        rewrite H in E; cbn in E; [congruence|].
      unfold Py.append in E. now destruct (redo_stack s).
    + (* KEY_Y *)
      destruct v; cbn [event_value_eqb snd]; try (cbn; congruence).
      intros E. right. repeat split.
      unfold redo_stroke in *. cbn [tag_redraw redo_stack] in *.
      rewrite (truthy_true NE) in *.
      destruct (Py.pop (redo_stack s)) as [[r rest]|] eqn:P.
      * cbn in E. subst rest. apply pop_some in P. exists r. split; auto.
      * apply pop_none in P. congruence.
  - unfold modal. cbn [type value mouse_region_x mouse_region_y].
    destruct t; cbn [event_type_eqb orb andb];
      try (destruct (_handle op) as [h|]; [unfold draw_handler_remove;
             destruct (existsb _ _)|]; cbn; congruence);
      try (cbn; congruence).
    + destruct v; cbn; try congruence; auto.
    + cbn [tag_redraw current_stroke].
      destruct (current_stroke s) as [r|]; cbn [snd].
      * unfold list_append, contents. cbn [tag_redraw store].
        destruct (nth_error (store s) r); cbn; congruence.
      * cbn. congruence.
    + destruct v; cbn [event_value_eqb snd]; try (cbn; congruence); auto.
    + destruct v; cbn [event_value_eqb snd]; try (cbn; congruence); auto.
Qed.

Lemma redo_stack_cleared_on_press_witness :
  let s := run op0 s0 [ev LEFTMOUSE PRESS 0 0; ev KEY_Z PRESS 0 0] in
  redo_stack s = [1%nat] /\
  redo_stack (snd (modal op0 s (ev LEFTMOUSE PRESS 2 2))) = [] /\
  (exists r, redo_stack s = [r] /\
     strokes (snd (modal op0 s (ev KEY_Y PRESS 0 0)))
     = Py.append (strokes s) r) /\
  value (ev KEY_Y PRESS 0 0) = PRESS.
Proof.
  intros s. split; [reflexivity|]. split; [|split].
  - apply (redo_stack_cleared_on_press op0 s (ev LEFTMOUSE PRESS 2 2));
      reflexivity.
  - destruct (redo_stack_cleared_on_press op0 s (ev KEY_Y PRESS 0 0))
      as (_ & H & _).
    destruct H as [[H _]|(_ & _ & H)];
      [discriminate | reflexivity | discriminate | exact H].
  - apply (redo_stack_cleared_on_press op0 s (ev KEY_Y PRESS 0 0)).
    vm_compute. discriminate.
Defined.

Lemma store_set_length h : forall r v, length (store_set h r v) = length h.
Proof.
  induction h as [|a h IH]; intros [|r] v; simpl; auto.
Qed.

Lemma current_live_iff s :
  current_live s <->
  exists r, current_stroke s = Some r /\ (r < length (store s))%nat.
Proof.
  unfold current_live, contents. split.
  - intros (r & pts & C & N). exists r. split; [assumption|].
    apply nth_error_Some. congruence.
  - intros (r & C & L). apply nth_error_Some in L.
    destruct (nth_error (store s) r) as [pts|] eqn:N; [eauto | congruence].
Qed.

(** Every modal step keeps [current_stroke] bound to a list object. *)
Lemma modal_current_live op s e :
  current_live s -> current_live (snd (modal op s e)).
Proof.
  rewrite !current_live_iff. intros (r & C & L). unfold modal.
  destruct (event_type_eqb (type e) RIGHTMOUSE || event_type_eqb (type e) ESC).
  { destruct (_handle op) as [h|]; [|cbn; eauto].
    unfold draw_handler_remove.
    destruct (existsb _ _); cbn; eauto. }
  destruct (event_type_eqb (type e) LEFTMOUSE).
  { destruct (event_value_eqb (value e) PRESS);
      [|destruct (event_value_eqb (value e) RELEASE)]; cbn;
      try (eexists; split; [reflexivity|]; rewrite length_app; simpl; lia).
    eauto. }
  cbn [tag_redraw current_stroke]. rewrite C.
  destruct (event_type_eqb (type e) MOUSEMOVE).
  { cbn [snd]. unfold list_append, contents. cbn [tag_redraw store].
    destruct (nth_error (store s) r) as [pts|]; cbn.
    - exists r. split; [assumption|]. now rewrite store_set_length.
    - eauto. }
  destruct (event_type_eqb (type e) KEY_Z && event_value_eqb (value e) PRESS).
  { cbn [snd]. unfold undo_stroke.
    destruct (Py.truthy _); [|cbn; eauto].
    destruct (Py.pop _) as [[x rest]|]; cbn; eauto. }
  destruct (event_type_eqb (type e) KEY_Y && event_value_eqb (value e) PRESS).
  { cbn [snd]. unfold redo_stroke.
    destruct (Py.truthy _); [|cbn; eauto].
    destruct (Py.pop _) as [[x rest]|]; cbn; eauto. }
  cbn. eauto.
Qed.

(** In every state of the session [current_stroke] is bound to a list
    object, so that a MOUSEMOVE always finds a list to append to. *)
Lemma session_current_live es : current_live (run op0 s0 es).
Proof.
  assert (H : current_live s0) by (exists 0%nat, []; split; reflexivity).
  revert H. generalize s0. induction es as [|e es IH]; intros s H; simpl.
  - exact H.
  - apply IH. now apply modal_current_live.
Qed.

(** C10, amended: a modal step on MOUSEMOVE returns RUNNING_MODAL, appends
    exactly the pair (mouse_region_x, mouse_region_y) to the list object
    [current_stroke] refers to, and leaves every other list object, the
    entries of [strokes] and [redo_stack] and [current_stroke] itself as
    they were.  The list object of the current stroke may itself be an
    entry of [strokes] or of [redo_stack]. *)
Theorem mousemove_appends_to_current
  (op : self) (s : state) (e : event) (r : ref) (pts : list point) :
  type e = MOUSEMOVE ->
  current_stroke s = Some r ->
  contents s r = Some pts ->
  let s' := snd (modal op s e) in
  fst (modal op s e) = Ok RUNNING_MODAL /\
  contents s' r = Some (pts ++ [(mouse_region_x e, mouse_region_y e)]) /\
  (forall r', r' <> r -> contents s' r' = contents s r') /\
  strokes s' = strokes s /\
  redo_stack s' = redo_stack s /\
  current_stroke s' = current_stroke s.
Proof.
  intros T C P. unfold modal. rewrite T. cbn [event_type_eqb orb].
  cbn [tag_redraw current_stroke]. rewrite C. cbn [fst snd].
  unfold list_append, contents in *. cbn [tag_redraw store]. rewrite P.
  cbn [set_store store strokes redo_stack current_stroke].
  repeat split; try assumption.
  - eapply nth_error_store_set_eq; eauto.
  - intros r' NE. now apply nth_error_store_set_ne.
Qed.

Lemma mousemove_appends_to_current_witness :
  let s := run op0 s0 [ev LEFTMOUSE PRESS 0 0; ev MOUSEMOVE NOTHING 1 2] in
  let s' := snd (modal op0 s (ev MOUSEMOVE NOTHING 3 4)) in
  strokes s' = [1%nat] /\
  contents s' 1%nat = Some [(1, 2); (3, 4)]%Z.
Proof.
  intros s s'.
  destruct (@mousemove_appends_to_current op0 s (ev MOUSEMOVE NOTHING 3 4)
              1%nat [(1, 2)%Z] eq_refl eq_refl eq_refl)
    as (_ & H1 & _ & H2 & _).
  split; [exact H2 | exact H1].
Defined.

(** C10 as stated fails: after a LEFTMOUSE press and a Z press, with the
    button still held, the stroke being drawn is the entry of [redo_stack],
    and the next MOUSEMOVE changes the contents of that entry. *)
Lemma mousemove_changes_redo_stack_entry :
  let s := run op0 s0 [ev LEFTMOUSE PRESS 0 0; ev KEY_Z PRESS 0 0] in
  let s' := snd (modal op0 s (ev MOUSEMOVE NOTHING 3 4)) in
  current_stroke s = Some 1%nat /\
  strokes s = [] /\
  redo_stack s = [1%nat] /\
  map (contents s) (redo_stack s) = [Some []] /\
  map (contents s') (redo_stack s') = [Some [(3, 4)%Z]] /\
  ~ (forall r, In r (redo_stack s) -> contents s' r = contents s r).
Proof.
  intros s s'. repeat split; try reflexivity.
  intros H. specialize (H 1%nat (or_introl eq_refl)). discriminate H.
Qed.

End DrawFacts.

(** ** Exact elimination *)

Module LinAlgFacts.

Import LinAlg.
Open Scope Qc_scope.

Lemma Qc_eqb_eq (a b : Qc) : Qc_eqb a b = true <-> a = b.
Proof.
  unfold Qc_eqb. rewrite Qeq_bool_iff. split.
  - apply Qc_is_canon.
  - intros ->. reflexivity.
Qed.

Lemma Qc_eqb_neq (a b : Qc) : Qc_eqb a b = false <-> a <> b.
Proof.
  rewrite <- Qc_eqb_eq. destruct (Qc_eqb a b); split; congruence.
Qed.

(** *** [solve] *)

Lemma square_spec A B :
  square A B = true ->
  Forall (fun r => length r = length A) A /\ length B = length A.
Proof.
  unfold square. rewrite !andb_true_iff, forallb_forall, Nat.eqb_eq.
  intros [[_ H] L]. split; [|assumption].
  apply Forall_forall. intros r Hin. apply Nat.eqb_eq. auto.
Qed.

End LinAlgFacts.

(** ** The layer mask operator *)

Module MaskFacts.

Import GreasePencil GREASE_PENCIL_OT_relative_layer_mask_add.

Lemma name_in_In n l : name_in n l = true <-> In n l.
Proof.
  unfold name_in. rewrite existsb_exists. split.
  - intros (m & Hin & E). apply String.eqb_eq in E. now subst.
  - intros Hin. exists n. split; [assumption | apply String.eqb_refl].
Qed.

Lemma name_in_not_In n l : name_in n l = false <-> ~ In n l.
Proof.
  rewrite <- name_in_In. destruct (name_in n l); split; congruence.
Qed.

(** C5: with [target] the node next to the active layer in the direction
    of [mode], [execute] returns CANCELLED exactly when [target] is None,
    is a layer group, or is a layer whose name is among the masks of the
    active layer; it then leaves the active layer unchanged and adds one
    ERROR report.  When [target] is a layer whose name is not among the
    masks, [execute] returns FINISHED, the name is added to the masks and
    [use_masks] is True.  No other result occurs. *)
Theorem relative_layer_mask_add_execute (s : self) (l : layer) :
  let target := match mode s with
                | ABOVE => next_node l
                | BELOW => prev_node l
                end in
  let out := execute s l in
  ((target = None \/
    (exists g, target = Some (GreasePencilLayerGroup g)) \/
    (exists n, target = Some (GreasePencilLayer n) /\ In n (mask_layers l)))
   <-> fst out = Ok CANCELLED) /\
  (fst out = Ok CANCELLED ->
   snd (snd out) = l /\
   exists msg, reports (fst (snd out)) = reports s ++ [(ERROR, msg)]) /\
  (forall n, target = Some (GreasePencilLayer n) -> ~ In n (mask_layers l) ->
   fst out = Ok FINISHED /\
   mask_layers (snd (snd out)) = mask_layers l ++ [n] /\
   use_masks (snd (snd out)) = true /\
   reports (fst (snd out)) = reports s) /\
  (fst out = Ok CANCELLED \/ fst out = Ok FINISHED).
Proof.
  intros target out. subst out. unfold execute. fold target.
  destruct target as [[n|g]|] eqn:T.
  - destruct (name_in n (mask_layers l)) eqn:E.
    + apply name_in_In in E. cbn. split; [|split; [|split]].
      * split; [reflexivity|]. intros _. right; right. eauto.
      * intros _. split; [reflexivity | eexists; reflexivity].
      * intros m [= <-] H. contradiction.
      * now left.
    + apply name_in_not_In in E. cbn. split; [|split; [|split]].
      * split; [|discriminate].
        intros [H|[[g H]|(m & [= <-] & H)]]; try discriminate. contradiction.
      * discriminate.
      * intros m [= <-] _. auto.
      * now right.
  - cbn. split; [|split; [|split]].
    + split; [reflexivity|]. intros _. right; left. eauto.
    + intros _. split; [reflexivity | eexists; reflexivity].
    + discriminate.
    + now left.
  - cbn. split; [|split; [|split]].
    + split; [reflexivity|]. intros _. now left.
    + intros _. split; [reflexivity | eexists; reflexivity].
    + discriminate.
    + now left.
Qed.

Lemma relative_layer_mask_add_execute_witness :
  let l := {| next_node := Some (GreasePencilLayer "Ink");
              prev_node := None;
              mask_layers := ["Paper"%string];
              use_masks := false |} in
  (fst (execute {| mode := BELOW; reports := [] |} l) = Ok CANCELLED /\
   snd (snd (execute {| mode := BELOW; reports := [] |} l)) = l) /\
  (fst (execute {| mode := ABOVE; reports := [] |} l) = Ok FINISHED /\
   mask_layers (snd (snd (execute {| mode := ABOVE; reports := [] |} l)))
   = ["Paper"; "Ink"]%string /\
   use_masks (snd (snd (execute {| mode := ABOVE; reports := [] |} l)))
   = true).
Proof.
  intros l. split.
  - destruct (relative_layer_mask_add_execute
                {| mode := BELOW; reports := [] |} l) as (H1 & H2 & _).
    assert (C : fst (execute {| mode := BELOW; reports := [] |} l)
                = Ok CANCELLED) by (apply H1; left; reflexivity).
    split; [exact C | apply H2; exact C].
  - destruct (relative_layer_mask_add_execute
                {| mode := ABOVE; reports := [] |} l) as (_ & _ & H3 & _).
    destruct (H3 "Ink"%string eq_refl) as (A & B & C & _).
    + simpl. intros [H|[]]. discriminate H.
    + auto.
Defined.

End MaskFacts.

(** ** The perspective warp operator *)

Module WarpFacts.

Import LinAlg LinAlgFacts GreasePencil GREASE_PENCIL_OT_perspective_warp.
Import Samples Predicates.
Open Scope Qc_scope.

(** *** Handles *)

Lemma make_handles_spec bbox : forall c hs,
  make_handles c hs bbox =
  (hs ++ seq (length (data_objects c)) (length bbox),
   {| frame := frame c;
      data_objects := data_objects c ++ map (fun co => Some (warp_handle co)) bbox;
      collection_objects :=
        collection_objects c ++ seq (length (data_objects c)) (length bbox);
      view_layer_updates := view_layer_updates c;
      modal_handlers := modal_handlers c |}).
Proof.
  induction bbox as [|co t IH]; intros c hs; simpl.
  - rewrite !app_nil_r. now destruct c.
  - rewrite IH. unfold Py.append. simpl.
    rewrite length_app, Nat.add_1_r, <- !app_assoc. reflexivity.
Qed.

Lemma lookup_fresh_handle d bbox c i co :
  data_objects c = d ++ map (fun co => Some (warp_handle co)) bbox ->
  nth_error bbox i = Some co ->
  lookup_object c (length d + i) = Some (warp_handle co).
Proof.
  intros D N. unfold lookup_object. rewrite D.
  rewrite nth_error_app2 by lia.
  replace (length d + i - length d)%nat with i by lia.
  rewrite nth_error_map, N. reflexivity.
Qed.

Lemma handle_locations_fresh bbox : forall d c,
  data_objects c = d ++ map (fun co => Some (warp_handle co)) bbox ->
  handle_locations c (seq (length d) (length bbox)) = Ok bbox.
Proof.
  induction bbox as [|co t IH]; intros d c D; simpl; [reflexivity|].
  rewrite <- (Nat.add_0_r (length d)) at 1.
  rewrite (@lookup_fresh_handle d (co :: t) c 0%nat co D eq_refl).
  specialize (IH (d ++ [Some (warp_handle co)]) c).
  rewrite length_app, Nat.add_1_r in IH. rewrite IH.
  - now destruct co.
  - rewrite D, <- app_assoc. reflexivity.
Qed.

Lemma handles_live_fresh bbox d c :
  data_objects c = d ++ map (fun co => Some (warp_handle co)) bbox ->
  handles_live c (seq (length d) (length bbox)).
Proof.
  intros D. split; [apply seq_NoDup|].
  intros h Hin. apply in_seq in Hin.
  destruct (nth_error bbox (h - length d)) as [co|] eqn:N.
  - replace h with (length d + (h - length d))%nat by lia.
    rewrite (@lookup_fresh_handle d bbox c (h - length d)%nat co D N).
    discriminate.
  - apply nth_error_None in N. lia.
Qed.

Lemma nth_error_clear_slot_ne l : forall h h',
  h' <> h -> nth_error (clear_slot l h) h' = nth_error l h'.
Proof.
  induction l as [|o l IH]; intros [|h] [|h'] NE; simpl; try reflexivity;
    try congruence.
  apply IH. congruence.
Qed.

Lemma nth_error_clear_slot_eq l : forall h o,
  nth_error (clear_slot l h) h = Some o -> o = None.
Proof.
  induction l as [|a l IH]; intros [|h] o H; simpl in *; try discriminate.
  - congruence.
  - eauto.
Qed.

Lemma remove_object_spec c h o :
  lookup_object c h = Some o ->
  exists c', remove_object c h = Ok c' /\
             frame c' = frame c /\
             lookup_object c' h = None /\
             forall h', h' <> h -> lookup_object c' h' = lookup_object c h'.
Proof.
  intros L. unfold remove_object. rewrite L. eexists. split; [reflexivity|].
  split; [reflexivity|]. split.
  - unfold lookup_object. simpl.
    destruct (nth_error (clear_slot (data_objects c) h) h) as [o'|] eqn:E;
      [|reflexivity].
    apply nth_error_clear_slot_eq in E. now subst.
  - intros h' NE. unfold lookup_object. simpl.
    now rewrite nth_error_clear_slot_ne.
Qed.

(** Removing live handles succeeds, touches no other object and leaves the
    frame alone. *)
Lemma remove_handles_ok hs : forall c,
  handles_live c hs ->
  exists c', remove_handles c hs = (Ok tt, c') /\
             frame c' = frame c /\
             (forall h, In h hs -> lookup_object c' h = None) /\
             (forall h, ~ In h hs -> lookup_object c' h = lookup_object c h).
Proof.
  induction hs as [|h t IH]; intros c [ND LV]; simpl.
  - exists c. repeat split; auto. intros h [].
  - inversion ND as [|? ? Hnotin ND']; subst.
    destruct (lookup_object c h) as [o|] eqn:L;
      [|exfalso; apply (LV h); [now left | assumption]].
    destruct (remove_object_spec _ _ L) as (c1 & R & F1 & N1 & O1).
    rewrite R.
    destruct (IH c1) as (c' & R' & F' & N' & O').
    { split; [assumption|]. intros h' Hin.
      rewrite O1 by (intros ->; contradiction). apply LV. now right. }
    exists c'. split; [assumption|]. split; [congruence|]. split.
    + intros h' [<-|Hin]; [|auto]. rewrite O' by assumption. assumption.
    + intros h' Hn. rewrite O', O1; auto.
Qed.

(** [finish] with [_confirm] False: no warp, handles removed, FINISHED. *)
Lemma finish_cancel s c hs :
  _confirm s = false -> _handles s = Some hs -> handles_live c hs ->
  exists c', finish s c = (Ok FINISHED, (set_handles s None, c')) /\
             frame c' = frame c /\
             (forall h, In h hs -> lookup_object c' h = None) /\
             (forall h, ~ In h hs -> lookup_object c' h = lookup_object c h).
Proof.
  intros C H LV. unfold finish. rewrite C, H.
  destruct (remove_handles_ok LV) as (c' & R & F & N & O).
  rewrite R. exists c'. auto.
Qed.

(** *** [invoke] *)




Lemma py_min_ok l : l <> [] -> exists m, py_min l = Ok m.
Proof. destruct l; [congruence|]. simpl. eauto. Qed.

Lemma py_max_ok l : l <> [] -> exists m, py_max l = Ok m.
Proof. destruct l; [congruence|]. simpl. eauto. Qed.


(** C4, at the input where the code departs from it: the active frame has
    exactly one stroke, the stroke has no point, and [invoke] raises
    ValueError (from [min] over an empty generator) where the claim has it
    return RUNNING_MODAL; no handle is created and nothing is reported. *)
Theorem invoke_empty_stroke_raises :
  frame ctx_empty_stroke = Some {| strokes := [ {| points := [] |} ] |} /\
  invoke fresh ctx_empty_stroke = (Raise ValueError, (fresh, ctx_empty_stroke)).
Proof. split; reflexivity. Qed.

(** *** [modal] *)

Lemma modal_on_confirm s c e :
  type e = RET \/ type e = NUMPAD_ENTER ->
  modal s c e = finish (set_confirm s true) c.
Proof. unfold modal. now intros [-> | ->]. Qed.

Lemma modal_on_escape s c e :
  type e = ESC -> modal s c e = finish (set_confirm s false) c.
Proof. unfold modal. now intros ->. Qed.

End WarpFacts.

(** ** The cancel key *)

Module CancelFacts.

Import OperatorModalDraw Samples Predicates.





(** C7, at the input where the code departs from it: one stroke with a
    single point, so a bounding box without extent.  [invoke] creates the
    four handles; on RET the system is singular, [compute_matrix] raises
    LinAlgError inside [finish] before the removal loop, and the four
    handles stay in [bpy.data.objects] and in the collection, with
    [_handles] still set. *)
Theorem confirm_singular_keeps_handles :
  let s1 := fst (snd (warp_invoke warp_fresh ctx_one_point)) in
  let c1 := snd (snd (warp_invoke warp_fresh ctx_one_point)) in
  let out := warp_modal s1 c1 (key RET) in
  fst (warp_invoke warp_fresh ctx_one_point) = Ok RUNNING_MODAL /\
  warp_handles s1 = Some [0; 1; 2; 3]%nat /\
  fst out = Raise LinAlgError /\
  warp_handles (fst (snd out)) = Some [0; 1; 2; 3]%nat /\
  GreasePencil.collection_objects (snd (snd out)) = [0; 1; 2; 3]%nat /\
  forallb (fun h => match lookup_object (snd (snd out)) h with
                    | Some _ => true
                    | None => false
                    end) [0; 1; 2; 3]%nat = true.
Proof. vm_compute. repeat split; reflexivity. Qed.

End CancelFacts.

(** ** The drawing session *)

Module SessionFacts.

Import OperatorModalDraw ModalDrawOperator.

Lemma undo_stroke_effect s : lists_effect s (undo_stroke s).
Proof.
  unfold undo_stroke. destruct (Py.truthy (strokes s)) eqn:T;
    [|now apply Kept].
  destruct (Py.pop (strokes s)) as [[x l]|] eqn:P; [|now apply Kept].
  apply pop_some in P. now apply Undone with l x.
Qed.

Lemma redo_stroke_effect s : lists_effect s (redo_stroke s).
Proof.
  unfold redo_stroke. destruct (Py.truthy (redo_stack s)) eqn:T;
    [|now apply Kept].
  destruct (Py.pop (redo_stack s)) as [[x l]|] eqn:P; [|now apply Kept].
  apply pop_some in P. now apply Redone with l x.
Qed.

Lemma tag_redraw_effect s s' :
  lists_effect (tag_redraw s) s' -> lists_effect s s'.
Proof.
  intros [A B C | A B C | l x A B C D | l x A B C D]; cbn in *.
  - now apply Kept.
  - now apply Started.
  - now apply Undone with l x.
  - now apply Redone with l x.
Qed.

Lemma modal_effect op s e : lists_effect s (snd (modal op s e)).
Proof.
  apply tag_redraw_effect. unfold modal.
  destruct (event_type_eqb (type e) RIGHTMOUSE || event_type_eqb (type e) ESC).
  { destruct (_handle op) as [h|]; [|now apply Kept].
    unfold draw_handler_remove.
    destruct (existsb _ _); now apply Kept. }
  destruct (event_type_eqb (type e) LEFTMOUSE).
  { destruct (event_value_eqb (value e) PRESS);
      [|destruct (event_value_eqb (value e) RELEASE)].
    - apply Started; cbn; auto. rewrite length_app. simpl. lia.
    - apply Kept; cbn; auto. rewrite length_app. lia.
    - now apply Kept. }
  destruct (if event_type_eqb (type e) MOUSEMOVE
            then current_stroke (tag_redraw s) else None) as [r|].
  { cbn [snd]. unfold list_append.
    destruct (contents (tag_redraw s) r); [|now apply Kept].
    apply Kept; cbn; auto. now rewrite DrawFacts.store_set_length. }
  destruct (event_type_eqb (type e) KEY_Z && event_value_eqb (value e) PRESS).
  { apply undo_stroke_effect. }
  destruct (event_type_eqb (type e) KEY_Y && event_value_eqb (value e) PRESS).
  { apply redo_stroke_effect. }
  now apply Kept.
Qed.

Lemma undo_execute_effect s : lists_effect s (snd (StrokeUndo.execute s)).
Proof.
  unfold StrokeUndo.execute. destruct (Py.truthy (strokes s)) eqn:T;
    [|now apply Kept].
  destruct (Py.pop (strokes s)) as [[x l]|] eqn:P; [|now apply Kept].
  apply pop_some in P. now apply Undone with l x.
Qed.

Lemma redo_execute_effect s : lists_effect s (snd (StrokeRedo.execute s)).
Proof.
  unfold StrokeRedo.execute. destruct (Py.truthy (redo_stack s)) eqn:T;
    [|now apply Kept].
  destruct (Py.pop (redo_stack s)) as [[x l]|] eqn:P; [|now apply Kept].
  apply pop_some in P. now apply Redone with l x.
Qed.

Lemma step_effect op s a : lists_effect s (step op s a).
Proof.
  destruct a; simpl.
  - apply modal_effect.
  - apply undo_execute_effect.
  - apply redo_execute_effect.
Qed.

Lemma effect_refs_ok s s' : lists_effect s s' -> refs_ok s -> refs_ok s'.
Proof.
  unfold refs_ok.
  intros [A B C | A B C | l x A B C D | l x A B C D] [ND LT].
  - rewrite A, B. split; [assumption|].
    eapply Forall_impl; [|exact LT]. simpl. intros; lia.
  - rewrite A, B, app_nil_r, C.
    apply NoDup_app_remove_r in ND.
    apply Forall_app in LT. destruct LT as [LT _].
    split.
    + apply NoDup_app; [assumption | repeat constructor; intros [] |].
      intros r Hin [<-|[]]. rewrite Forall_forall in LT.
      specialize (LT _ Hin). lia.
    + apply Forall_app. split.
      * eapply Forall_impl; [|exact LT]. simpl. intros; lia.
      * repeat constructor.
  - assert (P : Permutation (strokes s ++ redo_stack s)
                            (strokes s' ++ redo_stack s')).
    { rewrite A, B, C, <- app_assoc. apply Permutation_app_head.
      apply Permutation_app_comm. }
    rewrite D. split.
    + eapply Permutation_NoDup; eassumption.
    + eapply Permutation_Forall; eassumption.
  - assert (P : Permutation (strokes s ++ redo_stack s)
                            (strokes s' ++ redo_stack s')).
    { rewrite A, B, C, <- app_assoc. apply Permutation_app_head.
      apply Permutation_app_comm. }
    rewrite D. split.
    + eapply Permutation_NoDup; eassumption.
    + eapply Permutation_Forall; eassumption.
Qed.

Lemma run_actions_cons op s a l :
  run_actions op s (a :: l) = run_actions op (step op s a) l.
Proof. reflexivity. Qed.

Lemma run_actions_app op s l1 l2 :
  run_actions op s (l1 ++ l2) = run_actions op (run_actions op s l1) l2.
Proof. unfold run_actions. apply fold_left_app. Qed.

Lemma run_actions_refs_ok op l : forall s,
  refs_ok s -> refs_ok (run_actions op s l).
Proof.
  induction l as [|a l IH]; intros s H.
  - exact H.
  - rewrite run_actions_cons. apply IH.
    eapply effect_refs_ok; [apply step_effect | exact H].
Qed.

(** X1: whatever events and button presses the host delivers after the
    module is loaded and the operator invoked, no list object is entered
    twice in [strokes] and [redo_stack] together, and every entry refers
    to a list object that exists. *)
Theorem session_refs_ok (op : self) (l : list action) :
  refs_ok (run_actions op s0 l).
Proof. apply run_actions_refs_ok. split; constructor. Qed.

Lemma undo_stroke_history s :
  timeline (undo_stroke s) = timeline s /\
  store (undo_stroke s) = store s /\
  current_stroke (undo_stroke s) = current_stroke s.
Proof.
  unfold undo_stroke, timeline. destruct (Py.truthy (strokes s)); [|auto].
  destruct (Py.pop (strokes s)) as [[x l]|] eqn:P; [|auto].
  apply pop_some in P. cbn. rewrite P. unfold Py.append.
  rewrite rev_app_distr, <- app_assoc. auto.
Qed.

Lemma redo_stroke_history s :
  timeline (redo_stroke s) = timeline s /\
  store (redo_stroke s) = store s /\
  current_stroke (redo_stroke s) = current_stroke s.
Proof.
  unfold redo_stroke, timeline. destruct (Py.truthy (redo_stack s)); [|auto].
  destruct (Py.pop (redo_stack s)) as [[x l]|] eqn:P; [|auto].
  apply pop_some in P. cbn. rewrite P. unfold Py.append.
  rewrite rev_app_distr, <- app_assoc. auto.
Qed.

Lemma history_step op s a :
  history_action a = true ->
  timeline (step op s a) = timeline s /\
  store (step op s a) = store s /\
  current_stroke (step op s a) = current_stroke s.
Proof.
  destruct a as [[t v mx my]| |]; simpl.
  - destruct t, v; simpl; try discriminate; intros _; unfold modal; cbn.
    + apply (undo_stroke_history (tag_redraw s)).
    + apply (redo_stroke_history (tag_redraw s)).
  - intros _. destruct (undo_stroke_history s) as (A & B & C).
    unfold StrokeUndo.execute, undo_stroke in *.
    destruct (Py.truthy (strokes s)); [|auto].
    destruct (Py.pop (strokes s)) as [[x l]|]; auto.
  - intros _. destruct (redo_stroke_history s) as (A & B & C).
    unfold StrokeRedo.execute, redo_stroke in *.
    destruct (Py.truthy (redo_stack s)); [|auto].
    destruct (Py.pop (redo_stack s)) as [[x l]|]; auto.
Qed.

Lemma history_run op l : forall s,
  forallb history_action l = true ->
  timeline (run_actions op s l) = timeline s /\
  store (run_actions op s l) = store s /\
  current_stroke (run_actions op s l) = current_stroke s.
Proof.
  induction l as [|a l IH]; intros s H; [auto|].
  simpl in H. apply andb_true_iff in H. destruct H as [Ha Hl].
  rewrite run_actions_cons.
  destruct (history_step op s a Ha) as (A & B & C).
  destruct (IH (step op s a) Hl) as (A' & B' & C').
  repeat split; congruence.
Qed.

(** X2: any sequence of undo and redo actions (Z and Y presses in the
    modal operator, the two panel buttons) keeps the order in which the
    strokes were drawn: [strokes] followed by [redo_stack] reversed is the
    same list before and after, no stroke is lost or duplicated, and no
    list object changes. *)
Theorem history_keeps_timeline (op : self) (s : state) (l : list action) :
  forallb history_action l = true ->
  timeline (run_actions op s l) = timeline s /\
  store (run_actions op s l) = store s /\
  current_stroke (run_actions op s l) = current_stroke s.
Proof. apply history_run. Qed.

Lemma history_keeps_timeline_witness :
  let s := run op0 s0 [ev LEFTMOUSE PRESS 0 0; ev LEFTMOUSE RELEASE 0 0;
                        ev LEFTMOUSE PRESS 1 1; ev LEFTMOUSE RELEASE 1 1] in
  let l := [UndoButton; Event (ev KEY_Z PRESS 0 0); RedoButton;
            Event (ev KEY_Y PRESS 0 0); UndoButton] in
  strokes (run_actions op0 s l) = [1%nat] /\
  redo_stack (run_actions op0 s l) = [3%nat] /\
  timeline (run_actions op0 s l) = [1; 3]%nat.
Proof.
  intros s l.
  destruct (@history_keeps_timeline op0 s l eq_refl) as (A & _).
  split; [reflexivity|]. split; [reflexivity|]. rewrite A. reflexivity.
Defined.

Lemma app_eq_length (A : Type) (a a' b b' : list A) :
  length a = length a' -> a ++ b = a' ++ b' -> a = a' /\ b = b'.
Proof.
  revert a'. induction a as [|x a IH]; intros [|y a'] L E; simpl in *;
    try discriminate; auto.
  injection E as -> E. destruct (IH a') as [-> ->]; auto.
Qed.

Lemma undo_button_lengths op s :
  strokes s <> [] ->
  S (length (strokes (step op s UndoButton))) = length (strokes s) /\
  length (redo_stack (step op s UndoButton)) = S (length (redo_stack s)).
Proof.
  intros H. apply DrawFacts.nonempty_append in H. destruct H as (l & x & E).
  simpl. unfold StrokeUndo.execute.
  rewrite E, truthy_append, pop_append. cbn. unfold Py.append.
  rewrite !length_app. simpl. lia.
Qed.

Lemma redo_button_lengths op s :
  redo_stack s <> [] ->
  S (length (redo_stack (step op s RedoButton))) = length (redo_stack s) /\
  length (strokes (step op s RedoButton)) = S (length (strokes s)).
Proof.
  intros H. apply DrawFacts.nonempty_append in H. destruct H as (l & x & E).
  simpl. unfold StrokeRedo.execute.
  rewrite E, truthy_append, pop_append. cbn. unfold Py.append.
  rewrite !length_app. simpl. lia.
Qed.

Lemma undo_k_lengths op k : forall s,
  (k <= length (strokes s))%nat ->
  (length (strokes (run_actions op s (repeat UndoButton k))) + k
   = length (strokes s))%nat /\
  length (redo_stack (run_actions op s (repeat UndoButton k)))
  = (length (redo_stack s) + k)%nat.
Proof.
  induction k as [|k IH]; intros s H; simpl repeat.
  - cbn. lia.
  - rewrite run_actions_cons.
    assert (NE : strokes s <> []) by (destruct (strokes s); simpl in *; [lia | discriminate]).
    destruct (@undo_button_lengths op s NE) as [A B].
    destruct (IH (step op s UndoButton)) as [C D]; lia.
Qed.

Lemma redo_k_lengths op k : forall s,
  (k <= length (redo_stack s))%nat ->
  (length (redo_stack (run_actions op s (repeat RedoButton k))) + k
   = length (redo_stack s))%nat /\
  length (strokes (run_actions op s (repeat RedoButton k)))
  = (length (strokes s) + k)%nat.
Proof.
  induction k as [|k IH]; intros s H; simpl repeat.
  - cbn. lia.
  - rewrite run_actions_cons.
    assert (NE : redo_stack s <> []) by (destruct (redo_stack s); simpl in *; [lia | discriminate]).
    destruct (@redo_button_lengths op s NE) as [A B].
    destruct (IH (step op s RedoButton)) as [C D]; lia.
Qed.

Lemma forallb_repeat (A : Type) (f : A -> bool) (a : A) k :
  f a = true -> forallb f (repeat a k) = true.
Proof. intros H. induction k; simpl; [reflexivity | now rewrite H]. Qed.

Lemma timeline_lengths_eq s s' :
  timeline s' = timeline s -> length (strokes s') = length (strokes s) ->
  strokes s' = strokes s /\ redo_stack s' = redo_stack s.
Proof.
  unfold timeline. intros T L.
  destruct (@app_eq_length _ _ _ _ _ L T) as [A B]. split; [assumption|].
  rewrite <- (rev_involutive (redo_stack s')), B. apply rev_involutive.
Qed.

(** X3: for every [k] up to the number of visible strokes, [k] presses of
    the undo button followed by [k] presses of the redo button restore
    [strokes] and [redo_stack] exactly and change no list object; and for
    every [k] up to the number of undone strokes, [k] redos followed by
    [k] undos do the same. *)
Theorem undo_k_redo_k (op : self) (s : state) (k : nat) :
  ((k <= length (strokes s))%nat ->
   let s' := run_actions op s (repeat UndoButton k ++ repeat RedoButton k) in
   strokes s' = strokes s /\ redo_stack s' = redo_stack s /\
   store s' = store s)
  /\
  ((k <= length (redo_stack s))%nat ->
   let s' := run_actions op s (repeat RedoButton k ++ repeat UndoButton k) in
   strokes s' = strokes s /\ redo_stack s' = redo_stack s /\
   store s' = store s).
Proof.
  split; intros H s'; subst s'.
  - destruct (@history_run op
                (repeat UndoButton k ++ repeat RedoButton k) s) as (T & S & _).
    { rewrite forallb_app, !forallb_repeat; reflexivity. }
    rewrite run_actions_app in *.
    destruct (@undo_k_lengths op k s H) as [A B].
    destruct (@redo_k_lengths op k (run_actions op s (repeat UndoButton k)))
      as [C D]; [lia|].
    destruct (@timeline_lengths_eq _ _ T) as [E F]; [lia|]. auto.
  - destruct (@history_run op
                (repeat RedoButton k ++ repeat UndoButton k) s) as (T & S & _).
    { rewrite forallb_app, !forallb_repeat; reflexivity. }
    rewrite run_actions_app in *.
    destruct (@redo_k_lengths op k s H) as [A B].
    destruct (@undo_k_lengths op k (run_actions op s (repeat RedoButton k)))
      as [C D]; [lia|].
    destruct (@timeline_lengths_eq _ _ T) as [E F]; [lia|]. auto.
Qed.

Lemma undo_k_redo_k_witness :
  let s := run op0 s0 [ev LEFTMOUSE PRESS 0 0; ev LEFTMOUSE RELEASE 0 0;
                        ev LEFTMOUSE PRESS 1 1; ev LEFTMOUSE RELEASE 1 1;
                        ev LEFTMOUSE PRESS 2 2; ev KEY_Z PRESS 0 0] in
  (strokes (run_actions op0 s (repeat UndoButton 2 ++ repeat RedoButton 2))
   = [1; 3]%nat /\
   redo_stack (run_actions op0 s (repeat UndoButton 2 ++ repeat RedoButton 2))
   = [5%nat])
  /\
  (strokes (run_actions op0 s (repeat RedoButton 1 ++ repeat UndoButton 1))
   = [1; 3]%nat /\
   redo_stack (run_actions op0 s (repeat RedoButton 1 ++ repeat UndoButton 1))
   = [5%nat]).
Proof.
  intros s. split.
  - destruct (undo_k_redo_k op0 s 2) as [H _].
    destruct H as (A & B & _); [vm_compute; lia|].
    rewrite A, B. split; reflexivity.
  - destruct (undo_k_redo_k op0 s 1) as [_ H].
    destruct H as (A & B & _); [vm_compute; lia|].
    rewrite A, B. split; reflexivity.
Defined.

(** A list object that is not the current stroke is not touched by a
    step, and does not become the current stroke. *)
Lemma step_frozen op s a r :
  (r < length (store s))%nat -> current_stroke s <> Some r ->
  contents (step op s a) r = contents s r /\
  (r < length (store (step op s a)))%nat /\
  current_stroke (step op s a) <> Some r.
Proof.
  intros L C.
  assert (Keep : forall s', store s' = store s ->
                            current_stroke s' = current_stroke s ->
                            contents s' r = contents s r /\
                            (r < length (store s'))%nat /\
                            current_stroke s' <> Some r).
  { intros s' A B. unfold contents. rewrite A, B. auto. }
  assert (Grow : forall s', store s' = store s ++ [[]] ->
                            current_stroke s' = Some (length (store s)) ->
                            contents s' r = contents s r /\
                            (r < length (store s'))%nat /\
                            current_stroke s' <> Some r).
  { intros s' A B. unfold contents. rewrite A, B, length_app.
    rewrite nth_error_app1 by assumption. simpl.
    repeat split; [lia | intros [= E]; lia]. }
  destruct a as [e| |]; simpl.
  - unfold modal.
    destruct (event_type_eqb (type e) RIGHTMOUSE
              || event_type_eqb (type e) ESC).
    { destruct (_handle op) as [h|]; [|now apply Keep].
      unfold draw_handler_remove. destruct (existsb _ _); now apply Keep. }
    destruct (event_type_eqb (type e) LEFTMOUSE).
    { destruct (event_value_eqb (value e) PRESS);
        [|destruct (event_value_eqb (value e) RELEASE)];
        [now apply Grow | now apply Grow | now apply Keep]. }
    cbn [tag_redraw current_stroke].
    destruct (event_type_eqb (type e) MOUSEMOVE).
    { destruct (current_stroke s) as [c|] eqn:Cs.
      - cbn [snd]. unfold list_append, contents. cbn [tag_redraw store].
        destruct (nth_error (store s) c) as [pts|]; cbn;
          [|rewrite Cs; auto].
        rewrite Cs, DrawFacts.store_set_length.
        rewrite DrawFacts.nth_error_store_set_ne
          by (intros ->; apply C; reflexivity).
        auto.
      - destruct (event_type_eqb (type e) KEY_Z
                  && event_value_eqb (value e) PRESS);
          [|destruct (event_type_eqb (type e) KEY_Y
                      && event_value_eqb (value e) PRESS)]; cbn [snd].
        + destruct (undo_stroke_history (tag_redraw s)) as (_ & A & B).
          apply Keep; [exact A | rewrite B; exact Cs].
        + destruct (redo_stroke_history (tag_redraw s)) as (_ & A & B).
          apply Keep; [exact A | rewrite B; exact Cs].
        + apply Keep; [reflexivity | exact Cs]. }
    destruct (event_type_eqb (type e) KEY_Z
              && event_value_eqb (value e) PRESS);
      [|destruct (event_type_eqb (type e) KEY_Y
                  && event_value_eqb (value e) PRESS)]; cbn [snd].
    + destruct (undo_stroke_history (tag_redraw s)) as (_ & A & B).
      now apply Keep.
    + destruct (redo_stroke_history (tag_redraw s)) as (_ & A & B).
      now apply Keep.
    + now apply Keep.
  - destruct (@history_step op s UndoButton eq_refl) as (_ & A & B).
    now apply Keep.
  - destruct (@history_step op s RedoButton eq_refl) as (_ & A & B).
    now apply Keep.
Qed.

(** X4: a list object that exists and is not the one [current_stroke]
    refers to keeps its contents whatever events and button presses
    follow: once the mouse button is released (or pressed again), the
    points of the stroke drawn before are never changed. *)
Theorem other_strokes_frozen
  (op : self) (s : state) (l : list action) (r : ref) :
  (r < length (store s))%nat ->
  current_stroke s <> Some r ->
  contents (run_actions op s l) r = contents s r.
Proof.
  revert s. induction l as [|a l IH]; intros s L C; [reflexivity|].
  rewrite run_actions_cons.
  destruct (@step_frozen op s a r L C) as (A & B & D).
  rewrite IH; assumption.
Qed.

Lemma other_strokes_frozen_witness :
  let s := run op0 s0 [ev LEFTMOUSE PRESS 0 0; ev MOUSEMOVE NOTHING 1 2;
                        ev LEFTMOUSE RELEASE 1 2] in
  contents
    (run_actions op0 s
       [Event (ev MOUSEMOVE NOTHING 7 7); Event (ev KEY_Z PRESS 0 0);
        Event (ev LEFTMOUSE PRESS 3 3); Event (ev MOUSEMOVE NOTHING 4 4);
        RedoButton])
    1%nat
  = Some [(1, 2)%Z].
Proof.
  intros s.
  rewrite (@other_strokes_frozen op0 s _ 1%nat);
    [reflexivity | vm_compute; lia | vm_compute; discriminate].
Defined.

(** *** What the draw callback shows *)

Lemma fold_draw s l : forall g,
  let g' := fold_left
              (fun g r =>
                 if (2 <=? length (deref s r))%nat
                 then draw_line_strip g (deref s r)
                 else g) l g in
  blend g' = blend g /\ line_width g' = line_width g /\ color g' = color g /\
  drawn g' =
  drawn g
  ++ map (fun r => {| pos := deref s r; batch_blend := blend g;
                      batch_line_width := line_width g;
                      batch_color := color g |})
         (filter (fun r => (2 <=? length (deref s r))%nat) l).
Proof.
  induction l as [|r l IH]; intros g; cbv zeta; cbn [fold_left filter].
  - cbn [map]. rewrite app_nil_r. auto.
  - destruct (2 <=? length (deref s r))%nat.
    + destruct (IH (draw_line_strip g (deref s r))) as (A & B & C & D).
      cbv zeta in *. rewrite A, B, C, D.
      cbn [draw_line_strip blend line_width color drawn map].
      rewrite <- app_assoc. auto.
    + apply IH.
Qed.

Lemma draw_callback_px_drawn g s :
  drawn (draw_callback_px g s) = drawn g ++ map (stroke_batch s) (drawn_refs s)
  /\ blend (draw_callback_px g s) = BLEND_NONE
  /\ line_width (draw_callback_px g s) = 1%Z.
Proof.
  unfold draw_callback_px, drawn_refs.
  set (g3 := uniform_color _ _).
  destruct (fold_draw s (strokes s) g3) as (A & B & C & D).
  cbv zeta in *. set (g4 := fold_left _ _ _) in *.
  split; [|split; reflexivity].
  rewrite map_app.
  destruct (current_stroke s) as [r|]; [destruct (Py.truthy (deref s r))|];
    cbn [drawn blend_set line_width_set draw_line_strip];
    rewrite ?A, ?B, ?C, D; cbn; rewrite ?app_nil_r, <- ?app_assoc; reflexivity.
Qed.

(** X5: in every state of the session, one call of [draw_callback_px]
    draws, with blend ALPHA and line width 2, exactly the entries of
    [strokes] that have two points or more, in order, and then the current
    stroke if it has a point; it leaves blend NONE and line width 1.  A
    stroke that has been undone is not drawn, unless it is the stroke
    being drawn. *)
Theorem callback_draws_visible_strokes
  (op : self) (l : list action) (g : gpu) :
  let s := run_actions op s0 l in
  drawn (draw_callback_px g s) = drawn g ++ map (stroke_batch s) (drawn_refs s)
  /\ blend (draw_callback_px g s) = BLEND_NONE
  /\ line_width (draw_callback_px g s) = 1%Z
  /\ (forall r, In r (drawn_refs s) ->
                 (In r (strokes s) /\ (2 <= length (deref s r))%nat) \/
                 (current_stroke s = Some r /\ deref s r <> []))
  /\ (forall r, In r (redo_stack s) -> current_stroke s <> Some r ->
                 ~ In r (drawn_refs s)).
Proof.
  intros s.
  destruct (draw_callback_px_drawn g s) as (A & B & C).
  split; [exact A|]. split; [exact B|]. split; [exact C|].
  assert (D : forall r, In r (drawn_refs s) ->
                (In r (strokes s) /\ (2 <= length (deref s r))%nat) \/
                (current_stroke s = Some r /\ deref s r <> [])).
  { intros r Hin. unfold drawn_refs in Hin. apply in_app_or in Hin.
    destruct Hin as [Hin|Hin].
    - apply filter_In in Hin. destruct Hin as [H1 H2].
      apply Nat.leb_le in H2. now left.
    - destruct (current_stroke s) as [c|]; [|contradiction].
      destruct (deref s c) as [|p t] eqn:E; simpl in Hin; [contradiction|].
      destruct Hin as [<-|[]]. right. rewrite E. split; [reflexivity | discriminate]. }
  split; [exact D|].
  intros r Hr Hc Hin.
  destruct (D r Hin) as [[Hs _]|[Hcur _]]; [|contradiction].
  destruct (@run_actions_refs_ok op l s0) as [ND _]; [split; constructor|].
  fold s in ND.
  apply in_split in Hs. destruct Hs as (l1 & l2 & Es).
  rewrite Es, <- app_assoc in ND. simpl in ND.
  apply NoDup_remove_2 in ND. apply ND.
  apply in_or_app. right. apply in_or_app. now right.
Qed.

(** *** Mouse movement *)

Lemma modal_mousemove op s e c pts :
  type e = MOUSEMOVE -> current_stroke s = Some c ->
  contents s c = Some pts ->
  let s' := snd (modal op s e) in
  contents s' c = Some (pts ++ [position e]) /\
  (forall r, r <> c -> contents s' r = contents s r) /\
  strokes s' = strokes s /\ redo_stack s' = redo_stack s /\
  current_stroke s' = Some c.
Proof.
  intros T C P. unfold modal. rewrite T. cbn [event_type_eqb orb].
  cbn [tag_redraw current_stroke]. rewrite C. cbn [snd].
  unfold list_append, contents in *. cbn [tag_redraw store]. rewrite P.
  cbn [set_store store strokes redo_stack current_stroke].
  repeat split; try assumption.
  - eapply DrawFacts.nth_error_store_set_eq; eauto.
  - intros r NE. now apply DrawFacts.nth_error_store_set_ne.
Qed.

Lemma run_mousemoves op es : forall s c pts,
  Forall (fun e => type e = MOUSEMOVE) es ->
  current_stroke s = Some c -> contents s c = Some pts ->
  contents (run op s es) c = Some (pts ++ map position es) /\
  (forall r, r <> c -> contents (run op s es) r = contents s r) /\
  strokes (run op s es) = strokes s /\
  redo_stack (run op s es) = redo_stack s /\
  current_stroke (run op s es) = Some c.
Proof.
  induction es as [|e es IH]; intros s c pts F C P; simpl.
  - rewrite app_nil_r. auto.
  - inversion F as [|? ? Te Fes]; subst.
    destruct (@modal_mousemove op s e c pts Te C P) as (A & B & D & E & G).
    destruct (IH _ c _ Fes G A) as (A' & B' & D' & E' & G').
    rewrite <- app_assoc in A'. simpl in A'.
    repeat split; try congruence.
    intros r NE. rewrite B', B; auto.
Qed.

(** X6: after the mouse button is released, [current_stroke] is a new list
    that is in neither [strokes] nor [redo_stack]; the MOUSEMOVE events
    that follow leave both lists and every stroke drawn so far unchanged,
    but their positions all pile up in that list, and the draw callback
    draws it as soon as it has one point. *)
Theorem release_then_moves
  (op : self) (s : state) (e : event) (es : list event) :
  refs_ok s ->
  type e = LEFTMOUSE -> value e = RELEASE ->
  Forall (fun e' => type e' = MOUSEMOVE) es ->
  let c := length (store s) in
  let s' := run op s (e :: es) in
  strokes s' = strokes s /\
  redo_stack s' = redo_stack s /\
  (forall r, (r < c)%nat -> contents s' r = contents s r) /\
  current_stroke s' = Some c /\
  contents s' c = Some (map position es) /\
  ~ In c (strokes s' ++ redo_stack s') /\
  (es <> [] -> In c (drawn_refs s')).
Proof.
  intros [ND LT] T V F c s'. subst s'. simpl run.
  set (s1 := snd (modal op s e)).
  assert (E1 : s1 = set_current_stroke
                      (set_store (tag_redraw s) (store s ++ [[]])) (Some c)).
  { unfold s1, modal. rewrite T, V. reflexivity. }
  assert (C1 : current_stroke s1 = Some c) by (rewrite E1; reflexivity).
  assert (P1 : contents s1 c = Some []).
  { rewrite E1. unfold contents, c. cbn.
    rewrite nth_error_app2, Nat.sub_diag by lia. reflexivity. }
  destruct (@run_mousemoves op es s1 c [] F C1 P1) as (A & B & D & E & G).
  assert (S1 : strokes s1 = strokes s) by (rewrite E1; reflexivity).
  assert (R1 : redo_stack s1 = redo_stack s) by (rewrite E1; reflexivity).
  split; [congruence|]. split; [congruence|]. split.
  { intros r Hr. rewrite B by lia. rewrite E1. unfold contents. cbn.
    now rewrite nth_error_app1. }
  split; [exact G|]. split; [exact A|]. split.
  { rewrite D, E, S1, R1. intros Hin. rewrite Forall_forall in LT.
    specialize (LT _ Hin). unfold c in LT. lia. }
  intros NE. unfold drawn_refs. apply in_or_app. right.
  rewrite G. unfold deref. rewrite A.
  destruct es as [|e1 es1]; [congruence|]. simpl. now left.
Qed.

Lemma release_then_moves_witness :
  let s := run op0 s0 [ev LEFTMOUSE PRESS 0 0; ev MOUSEMOVE NOTHING 1 1] in
  let s' := run op0 s [ev LEFTMOUSE RELEASE 1 1; ev MOUSEMOVE NOTHING 5 5;
                        ev MOUSEMOVE NOTHING 6 7] in
  strokes s' = [1%nat] /\
  current_stroke s' = Some 2%nat /\
  contents s' 2%nat = Some [(5, 5); (6, 7)]%Z /\
  In 2%nat (drawn_refs s').
Proof.
  intros s s'.
  destruct (@release_then_moves op0 s (ev LEFTMOUSE RELEASE 1 1)
              [ev MOUSEMOVE NOTHING 5 5; ev MOUSEMOVE NOTHING 6 7])
    as (A & _ & _ & B & C & _ & D).
  - split; [repeat constructor; intros [] | repeat constructor].
  - reflexivity.
  - reflexivity.
  - repeat constructor.
  - split; [exact A|]. split; [exact B|]. split; [exact C|].
    apply D. discriminate.
Defined.

(** *** Invoking and cancelling *)

Lemma remove_fresh_tail (l : list nat) (h : nat) :
  ~ In h l -> remove Nat.eq_dec h (l ++ [h]) = l.
Proof.
  intros H. rewrite remove_app, notin_remove by assumption. simpl.
  destruct (Nat.eq_dec h h); [apply app_nil_r | congruence].
Qed.

(** X7: [invoke] followed at once by the cancel key (ESC or RIGHTMOUSE)
    returns RUNNING_MODAL and then CANCELLED and leaves the registered
    draw handlers exactly as they were before [invoke], provided the
    handle the host hands out is not already registered; the strokes, the
    redo stack and the list objects are untouched. *)
Theorem invoke_then_cancel (s : state) (e : event) :
  ~ In (next_handler s) (draw_handlers s) ->
  type e = ESC \/ type e = RIGHTMOUSE ->
  let op := fst (invoke s) in
  let s1 := snd (snd (invoke s)) in
  fst (snd (invoke s)) = Ok RUNNING_MODAL /\
  fst (modal op s1 e) = Ok CANCELLED /\
  draw_handlers (snd (modal op s1 e)) = draw_handlers s /\
  strokes (snd (modal op s1 e)) = strokes s /\
  redo_stack (snd (modal op s1 e)) = redo_stack s /\
  store (snd (modal op s1 e)) = store s /\
  current_stroke (snd (modal op s1 e)) = current_stroke s.
Proof.
  intros H T op s1. split; [reflexivity|].
  unfold modal.
  replace (event_type_eqb (type e) RIGHTMOUSE || event_type_eqb (type e) ESC)
    with true by (destruct T as [-> | ->]; reflexivity).
  cbn [op invoke fst _handle]. unfold draw_handler_remove.
  replace (existsb (Nat.eqb (next_handler s)) (draw_handlers (tag_redraw s1)))
    with true.
  - cbn. rewrite remove_fresh_tail by assumption. repeat split.
  - symmetry. apply existsb_exists. exists (next_handler s).
    split; [|apply Nat.eqb_refl]. cbn. apply in_or_app. right. now left.
Qed.

Lemma invoke_then_cancel_witness :
  let s := run op0 s0 [ev LEFTMOUSE PRESS 0 0; ev RIGHTMOUSE PRESS 0 0] in
  draw_handlers s = [] /\
  draw_handlers
    (snd (modal (fst (invoke s)) (snd (snd (invoke s))) (ev ESC PRESS 0 0)))
  = [] /\
  strokes
    (snd (modal (fst (invoke s)) (snd (snd (invoke s))) (ev ESC PRESS 0 0)))
  = [1%nat].
Proof.
  intros s.
  destruct (@invoke_then_cancel s (ev ESC PRESS 0 0)) as (_ & _ & A & B & _).
  - vm_compute. intros [].
  - left. reflexivity.
  - split; [reflexivity|]. split; [rewrite A | rewrite B]; reflexivity.
Defined.

End SessionFacts.

(** ** More on the layer mask operator *)

Module MaskMore.

Import GreasePencil GREASE_PENCIL_OT_relative_layer_mask_add.

Lemma execute_status s l :
  fst (execute s l) = Ok CANCELLED \/ fst (execute s l) = Ok FINISHED.
Proof.
  unfold execute.
  destruct (match mode s with ABOVE => next_node l | BELOW => prev_node l end)
    as [[n|g]|]; [destruct (name_in n (mask_layers l))| |]; cbn; auto.
Qed.

(** X8: where [poll] holds, [execute] finds the object and its active
    layer, raises nothing and returns CANCELLED or FINISHED; it raises
    AttributeError exactly when the context has no active object, the
    object is no grease pencil object, or it has no active layer, each of
    which [poll] excludes. *)
Theorem poll_guards_execute (s : self) (ctx : option active_object) :
  (poll ctx = true ->
   exists obj l,
     ctx = Some obj /\ layers_active obj = Some l /\
     fst (execute_in s ctx) = fst (execute s l) /\
     (fst (execute_in s ctx) = Ok CANCELLED \/
      fst (execute_in s ctx) = Ok FINISHED)) /\
  (fst (execute_in s ctx) = Raise AttributeError <->
   ctx = None \/
   exists obj, ctx = Some obj /\
               (is_gp obj = false \/ layers_active obj = None)) /\
  (fst (execute_in s ctx) = Raise AttributeError -> poll ctx = false).
Proof.
  assert (R : fst (execute_in s ctx) = Raise AttributeError <->
              ctx = None \/
              exists obj, ctx = Some obj /\
                          (is_gp obj = false \/ layers_active obj = None)).
  { unfold execute_in. destruct ctx as [obj|]; [|cbn; split; auto].
    destruct (is_gp obj) eqn:G.
    - destruct (layers_active obj) as [l|] eqn:L.
      + destruct (execute s l) as [r [s' l']] eqn:E. cbn [fst].
        pose proof (execute_status s l) as St. rewrite E in St. cbn in St.
        split.
        * intros ->. destruct St; discriminate.
        * intros [H|(o & [= <-] & [H|H])]; congruence.
      + cbn. split; [|reflexivity]. intros _. right. eauto.
    - cbn. split; [|reflexivity]. intros _. right. eauto. }
  split; [|split; [exact R|]].
  - unfold poll, execute_in. destruct ctx as [obj|]; [|discriminate].
    rewrite !andb_true_iff. intros [[[_ G] L] _]. rewrite G.
    destruct (layers_active obj) as [l|] eqn:EL; [|discriminate].
    exists obj, l. split; [reflexivity|]. split; [exact EL|].
    pose proof (execute_status s l) as St.
    destruct (execute s l) as [r [s' l']]. cbn in *. auto.
  - intros H. apply R in H. unfold poll.
    destruct H as [->|(obj & -> & [G|L])]; [reflexivity| |].
    + rewrite G. now rewrite andb_false_r.
    + rewrite L. cbn. now rewrite andb_false_r.
Qed.

Lemma poll_guards_execute_witness :
  let l := {| next_node := Some (GreasePencilLayer "Ink");
              prev_node := None;
              mask_layers := [];
              use_masks := false |} in
  let ctx := Some {| is_editable := true; otype := GREASEPENCIL;
                     layers_active := Some l; data_is_editable := true |} in
  fst (execute_in {| mode := ABOVE; reports := [] |} ctx) = Ok FINISHED /\
  poll None = false.
Proof.
  intros l ctx. split.
  - destruct (poll_guards_execute {| mode := ABOVE; reports := [] |} ctx)
      as (H & _).
    destruct H as (obj & l' & E1 & E2 & E3 & _); [reflexivity|].
    rewrite E3. injection E1 as <-. injection E2 as <-. reflexivity.
  - destruct (poll_guards_execute {| mode := ABOVE; reports := [] |} None)
      as (_ & _ & H).
    apply H. reflexivity.
Defined.

(** X9: the mask operator is offered exactly where the warp operator is
    offered and, moreover, the active object itself is editable; the warp
    operator makes no test of [obj.is_editable]. *)
Theorem mask_poll_is_warp_poll_and_editable (ctx : option active_object) :
  poll ctx = true <->
  GREASE_PENCIL_OT_perspective_warp.poll ctx = true /\
  exists obj, ctx = Some obj /\ is_editable obj = true.
Proof.
  unfold poll, GREASE_PENCIL_OT_perspective_warp.poll.
  destruct ctx as [obj|]; [|split; [discriminate | intros [H _]; discriminate H]].
  rewrite !andb_true_iff. destruct (is_gp obj); cbn [negb].
  - rewrite andb_true_iff. split.
    + intros [[[E _] L] D]. split; [tauto | eauto].
    + intros [[L D] (o & [= <-] & E)]. tauto.
  - split; [intros [[[_ F] _] _]; discriminate F | intros [F _]; discriminate F].
Qed.

Lemma mask_poll_is_warp_poll_and_editable_witness :
  let ctx := Some {| is_editable := false; otype := GREASEPENCIL;
                     layers_active :=
                       Some {| next_node := None; prev_node := None;
                               mask_layers := []; use_masks := false |};
                     data_is_editable := true |} in
  GREASE_PENCIL_OT_perspective_warp.poll ctx = true /\
  ~ poll ctx = true.
Proof.
  intros ctx. split; [reflexivity|].
  intros H. apply mask_poll_is_warp_poll_and_editable in H.
  destruct H as (_ & obj & [= <-] & E). discriminate E.
Defined.

Lemma name_in_append n l : name_in n (Py.append l n) = true.
Proof.
  apply MaskFacts.name_in_In. apply in_or_app. right. now left.
Qed.

(** X10: an [execute] that returned FINISHED cannot be repeated: run again
    with the same mode on the layer it left, it returns CANCELLED, reports
    that the layer is already added as a mask, and changes nothing. *)
Theorem execute_twice (s : self) (l : layer) :
  fst (execute s l) = Ok FINISHED ->
  let s1 := fst (snd (execute s l)) in
  let l1 := snd (snd (execute s l)) in
  execute s1 l1 =
  (Ok CANCELLED,
   (do_report s1 ERROR "Layer is already added as a mask", l1)).
Proof.
  unfold execute.
  destruct (mode s) eqn:M;
    [destruct (next_node l) as [[n|g]|] eqn:N
    |destruct (prev_node l) as [[n|g]|] eqn:N];
    try (cbn; discriminate);
    (destruct (name_in n (mask_layers l)) eqn:I; [cbn; discriminate|]);
    intros _; cbn [fst snd]; rewrite M;
    cbn [set_use_masks layer_mask_add next_node prev_node mask_layers];
    rewrite N, name_in_append; reflexivity.
Qed.

Lemma execute_twice_witness :
  let l := {| next_node := None;
              prev_node := Some (GreasePencilLayer "Paper");
              mask_layers := ["Ink"%string];
              use_masks := false |} in
  let s := {| mode := BELOW; reports := [] |} in
  fst (execute (fst (snd (execute s l))) (snd (snd (execute s l))))
  = Ok CANCELLED /\
  mask_layers (snd (snd (execute (fst (snd (execute s l)))
                                 (snd (snd (execute s l))))))
  = ["Ink"; "Paper"]%string.
Proof.
  intros l s.
  rewrite (@execute_twice s l eq_refl). split; reflexivity.
Defined.

(** X11: [execute] never takes a mask away, never enters a name twice,
    never clears [use_masks], and leaves the neighbours of the layer
    alone: the masks before are all among the masks after, at most one
    name is added, a list of masks without repetition stays without
    repetition, and [use_masks] once True stays True. *)
Theorem execute_keeps_masks (s : self) (l : layer) :
  let l' := snd (snd (execute s l)) in
  incl (mask_layers l) (mask_layers l') /\
  (length (mask_layers l') <= S (length (mask_layers l)))%nat /\
  (NoDup (mask_layers l) -> NoDup (mask_layers l')) /\
  (use_masks l = true -> use_masks l' = true) /\
  next_node l' = next_node l /\ prev_node l' = prev_node l.
Proof.
  unfold execute.
  destruct (match mode s with ABOVE => next_node l | BELOW => prev_node l end)
    as [[n|g]|]; [destruct (name_in n (mask_layers l)) eqn:I| |]; cbn;
    try (repeat split; auto using incl_refl).
  - apply incl_appl, incl_refl.
  - unfold Py.append. rewrite length_app. simpl. lia.
  - intros ND. unfold Py.append.
    apply MaskFacts.name_in_not_In in I.
    apply NoDup_app; [assumption | repeat constructor; intros [] |].
    intros m Hin [<-|[]]. contradiction.
Qed.

End MaskMore.

(** ** More on the perspective warp operator *)

Module WarpMore.

Import LinAlg LinAlgFacts GreasePencil GREASE_PENCIL_OT_perspective_warp.
Import Samples Predicates WarpFacts.
Open Scope Qc_scope.

(** *** The loop over the stroke points *)

Lemma warp_points_cons mat p t :
  warp_points mat (p :: t) =
  if Qc_eqb (z (homogeneous mat p)) 0
  then (Raise ZeroDivisionError, p :: t)
  else (fst (warp_points mat t), warp_point mat p :: snd (warp_points mat t)).
Proof.
  cbn [warp_points]. cbv zeta. fold (homogeneous mat p). unfold truediv.
  destruct (Qc_eqb (z (homogeneous mat p)) 0); [reflexivity|].
  destruct (warp_points mat t) as [r t']. reflexivity.
Qed.

(** X12: the loop of [finish] over the stroke points returns normally
    exactly when no point has [w.z = 0], and then every point is replaced
    by [(w.x / w.z, w.y / w.z)]; otherwise it raises ZeroDivisionError at
    the first point with [w.z = 0], the points before it are already
    replaced and that point and those after it are as they were.  In
    either case the number of points and every [co.z] are unchanged. *)
Theorem warp_points_outcome (mat : Matrix) (pts : list GPPoint) :
  let out := warp_points mat pts in
  length (snd out) = length pts /\
  map (fun p => z (co p)) (snd out) = map (fun p => z (co p)) pts /\
  ((fst out = Ok tt /\
    Forall (fun p => z (homogeneous mat p) <> 0) pts /\
    snd out = map (warp_point mat) pts)
   \/
   (fst out = Raise ZeroDivisionError /\
    exists pre p post,
      pts = pre ++ p :: post /\
      Forall (fun q => z (homogeneous mat q) <> 0) pre /\
      z (homogeneous mat p) = 0 /\
      snd out = map (warp_point mat) pre ++ p :: post)).
Proof.
  induction pts as [|p t IH]; cbv zeta in *.
  - cbn. split; [reflexivity|]. split; [reflexivity|]. left. auto.
  - rewrite warp_points_cons.
    destruct (Qc_eqb (z (homogeneous mat p)) 0) eqn:Z.
    + apply Qc_eqb_eq in Z. cbn [fst snd].
      split; [reflexivity|]. split; [reflexivity|]. right.
      split; [reflexivity|]. exists [], p, t. cbn. auto.
    + apply Qc_eqb_neq in Z. cbn [fst snd].
      destruct IH as (L & Zs & H).
      split; [cbn [length]; congruence|].
      split; [cbn [map warp_point co z]; congruence|].
      destruct H as [(R & F & E)|(R & pre & q & post & E1 & F & Zq & E2)].
      * left. split; [exact R|]. split; [now constructor|].
        cbn [map]. congruence.
      * right. split; [exact R|]. exists (p :: pre), q, post.
        split; [cbn; congruence|]. split; [now constructor|].
        split; [exact Zq|]. cbn [map app]. congruence.
Qed.

(** *** [compute_matrix] on bad input *)

Lemma solve_raises A B e : solve A B = Raise e -> e = LinAlgError.
Proof.
  unfold solve. destruct (square A B); [|congruence].
  destruct (gauss _ _); congruence.
Qed.

Lemma compute_matrix_not_ok src dst :
  (forall X, solve (assemble_A src dst) (assemble_B src dst) <> Ok X) ->
  compute_matrix src dst = Raise LinAlgError.
Proof.
  intros H. unfold compute_matrix.
  destruct (solve (assemble_A src dst) (assemble_B src dst)) as [X|e] eqn:S.
  - now destruct (H X).
  - now rewrite (solve_raises _ _ S).
Qed.

Lemma assemble_A_length src dst :
  length (assemble_A src dst) = (2 * length (combine src dst))%nat.
Proof.
  unfold assemble_A. induction (combine src dst) as [|[[x y] [u v]] t IH];
    [reflexivity|].
  cbn [flat_map rows_A app length]. rewrite IH. lia.
Qed.

Lemma assemble_A_rows src dst :
  Forall (fun r => length r = 8%nat) (assemble_A src dst).
Proof.
  unfold assemble_A. induction (combine src dst) as [|[[x y] [u v]] t IH];
    [constructor|].
  cbn [flat_map rows_A app]. repeat (constructor; [reflexivity|]). exact IH.
Qed.

Lemma compute_matrix_short src dst :
  Nat.min (length src) (length dst) <> 4%nat ->
  compute_matrix src dst = Raise LinAlgError.
Proof.
  intros H. apply compute_matrix_not_ok. intros X S.
  unfold solve in S.
  destruct (square (assemble_A src dst) (assemble_B src dst)) eqn:Sq;
    [|discriminate].
  destruct (square_spec _ _ Sq) as [W _].
  pose proof (assemble_A_rows src dst) as R8.
  pose proof (assemble_A_length src dst) as LA.
  rewrite length_combine in LA.
  destruct (assemble_A src dst) as [|r t] eqn:EA.
  - unfold square in Sq. cbn in Sq. discriminate.
  - inversion W; subst. inversion R8; subst. simpl length in *. lia.
Qed.

(** X13: [compute_matrix] needs exactly four pairs of points: when [src]
    and [dst] do not pair up to four (either list shorter than four, or
    both longer), the array built is not square and the call raises
    LinAlgError. *)
Theorem compute_matrix_needs_four_pairs (src dst : list (Qc * Qc)) :
  Nat.min (length src) (length dst) <> 4%nat ->
  compute_matrix src dst = Raise LinAlgError.
Proof. exact (@compute_matrix_short src dst). Qed.

Lemma compute_matrix_needs_four_pairs_witness :
  compute_matrix src_square [(qc 0, qc 0); (qc 1, qc 0); (qc 1, qc 1)]
  = Raise LinAlgError.
Proof.
  apply compute_matrix_needs_four_pairs. vm_compute. discriminate.
Defined.

(** *** The bounding box of [invoke] *)








(** *** [invoke] and then ESC *)

Lemma remove_handles_collection hs : forall c c',
  remove_handles c hs = (Ok tt, c') ->
  collection_objects c' =
  fold_left (fun l h => remove Nat.eq_dec h l) hs (collection_objects c).
Proof.
  induction hs as [|h t IH]; intros c c' R; cbn [remove_handles] in R.
  - injection R as <-. reflexivity.
  - unfold remove_object in R.
    destruct (GreasePencil.lookup_object c h); [|discriminate].
    rewrite (IH _ _ R). reflexivity.
Qed.

Lemma fold_remove_app hs : forall l1 l2 : list nat,
  fold_left (fun l h => remove Nat.eq_dec h l) hs (l1 ++ l2) =
  fold_left (fun l h => remove Nat.eq_dec h l) hs l1
  ++ fold_left (fun l h => remove Nat.eq_dec h l) hs l2.
Proof.
  induction hs as [|h t IH]; intros l1 l2; cbn [fold_left]; [reflexivity|].
  rewrite remove_app. apply IH.
Qed.

Lemma fold_remove_none hs : forall l : list nat,
  (forall h, In h hs -> ~ In h l) ->
  fold_left (fun l h => remove Nat.eq_dec h l) hs l = l.
Proof.
  induction hs as [|h t IH]; intros l H; cbn [fold_left]; [reflexivity|].
  rewrite notin_remove by (apply H; now left).
  apply IH. intros h' Hin. apply H. now right.
Qed.

Lemma fold_remove_all hs : forall l : list nat,
  incl l hs -> fold_left (fun l h => remove Nat.eq_dec h l) hs l = [].
Proof.
  induction hs as [|h t IH]; intros l H; cbn [fold_left].
  - now apply incl_l_nil.
  - apply IH. intros y Hy. apply in_remove in Hy. destruct Hy as [Hy NE].
    destruct (H y Hy) as [E|Hin]; [congruence | exact Hin].
Qed.

Lemma lookup_object_beyond c h :
  (length (data_objects c) <= h)%nat -> GreasePencil.lookup_object c h = None.
Proof.
  intros H. unfold GreasePencil.lookup_object.
  apply nth_error_None in H. now rewrite H.
Qed.

(** X16: [invoke] followed by ESC leaves no trace in the scene.  From
    every context whose active frame holds one stroke with a point, and
    whose collection names only objects of the data, [invoke] becomes
    modal and [modal] on ESC returns FINISHED; afterwards the frame is the
    frame before [invoke], the collection lists the objects it listed
    before, every object looked up is the object it was, and [_handles] is
    None again. *)
Theorem warp_invoke_then_escape
  (s : self) (c : context) (f : GPFrame) (st : GPStroke) (e : event) :
  frame c = Some f -> strokes f = [st] -> points st <> [] ->
  collection_ok c -> type e = ESC ->
  exists s1 c1 s2 c2,
    invoke s c = (Ok RUNNING_MODAL, (s1, c1)) /\
    modal s1 c1 e = (Ok FINISHED, (s2, c2)) /\
    _handles s2 = None /\
    frame c2 = frame c /\
    collection_objects c2 = collection_objects c /\
    forall h, GreasePencil.lookup_object c2 h = GreasePencil.lookup_object c h.
Proof.
  intros F Sk P CO T.
  destruct (@py_min_ok (map (fun p => x (co p)) (points st))) as [a A];
    [destruct (points st); [congruence | discriminate]|].
  destruct (@py_max_ok (map (fun p => x (co p)) (points st))) as [b B];
    [destruct (points st); [congruence | discriminate]|].
  destruct (@py_min_ok (map (fun p => y (co p)) (points st))) as [a' A'];
    [destruct (points st); [congruence | discriminate]|].
  destruct (@py_max_ok (map (fun p => y (co p)) (points st))) as [b' B'];
    [destruct (points st); [congruence | discriminate]|].
  assert (I : invoke s c =
              (Ok RUNNING_MODAL,
               (do_report
                  {| _handles := Some (seq (length (data_objects c)) 4);
                     _src_bbox := Some (corners a b a' b');
                     _confirm := _confirm s; reports := reports s |}
                  INFO "Move handles and press Enter to confirm",
                {| frame := Some f;
                   data_objects :=
                     data_objects c
                     ++ map (fun co => Some (warp_handle co))
                            (corners a b a' b');
                   collection_objects :=
                     collection_objects c ++ seq (length (data_objects c)) 4;
                   view_layer_updates := S (view_layer_updates c);
                   modal_handlers := S (modal_handlers c) |}))).
  { unfold invoke. rewrite F, Sk. cbn [length Nat.eqb Nat.ltb Nat.leb].
    rewrite A, B, A', B'.
    change [(a, a'); (b, a'); (b, b'); (a, b')] with (corners a b a' b').
    rewrite make_handles_spec.
    cbn [app frame data_objects collection_objects view_layer_updates
         modal_handlers].
    rewrite F. reflexivity. }
  set (s1 := do_report _ _ _) in I. set (c1 := Build_context _ _ _ _ _) in I.
  assert (D : data_objects c1 =
              data_objects c
              ++ map (fun co => Some (warp_handle co)) (corners a b a' b'))
    by reflexivity.
  pose proof (@handles_live_fresh (corners a b a' b') (data_objects c) c1 D)
    as LV.
  cbn [corners length] in LV.
  destruct (@finish_cancel (set_confirm s1 false) c1
              (seq (length (data_objects c)) 4) eq_refl eq_refl LV)
    as (c2 & Fi & Fr & Gone & Kept).
  assert (R : remove_handles c1 (seq (length (data_objects c)) 4) = (Ok tt, c2)).
  { unfold finish in Fi. cbn [set_confirm _confirm _handles s1 do_report] in Fi.
    destruct (remove_handles c1 (seq (length (data_objects c)) 4))
      as [[[]|ex] cx]; [|discriminate].
    injection Fi as <-. reflexivity. }
  exists s1, c1, (set_handles (set_confirm s1 false) None), c2.
  split; [exact I|]. split; [rewrite (@modal_on_escape s1 c1 e T); exact Fi|].
  split; [reflexivity|]. split; [rewrite Fr, F; reflexivity|]. split.
  - rewrite (@remove_handles_collection _ _ _ R).
    cbn [collection_objects c1]. rewrite fold_remove_app.
    rewrite fold_remove_none, fold_remove_all, app_nil_r;
      [reflexivity | apply incl_refl |].
    intros h Hin Hc. apply in_seq in Hin. apply CO in Hc. lia.
  - intros h.
    destruct (in_dec Nat.eq_dec h (seq (length (data_objects c)) 4))
      as [Hin|Hn].
    + rewrite (Gone h Hin). symmetry. apply lookup_object_beyond.
      apply in_seq in Hin. lia.
    + rewrite (Kept h Hn). unfold GreasePencil.lookup_object. rewrite D.
      destruct (Nat.lt_ge_cases h (length (data_objects c))) as [Lt|Ge].
      * now rewrite nth_error_app1.
      * assert (Ge' : (length (data_objects c) + 4 <= h)%nat).
        { destruct (Nat.lt_ge_cases h (length (data_objects c) + 4))
            as [Lt'|Ge']; [|exact Ge'].
          exfalso. apply Hn. apply in_seq. lia. }
        replace (nth_error (data_objects c) h) with (@None (option Object))
          by (symmetry; apply nth_error_None; lia).
        replace (nth_error (data_objects c ++ _) h)
          with (@None (option Object)); [reflexivity|].
        symmetry. apply nth_error_None.
        rewrite length_app, length_map. cbn [corners length]. lia.
Qed.

Lemma warp_invoke_then_escape_witness :
  exists s1 c1 s2 c2,
    invoke fresh ctx_diagonal = (Ok RUNNING_MODAL, (s1, c1)) /\
    modal s1 c1 (key ESC) = (Ok FINISHED, (s2, c2)) /\
    _handles s2 = None /\
    frame c2 = frame ctx_diagonal /\
    collection_objects c2 = collection_objects ctx_diagonal /\
    forall h, GreasePencil.lookup_object c2 h
              = GreasePencil.lookup_object ctx_diagonal h.
Proof.
  apply (@warp_invoke_then_escape fresh ctx_diagonal
           {| strokes := [ {| points := [pt 0 0; pt 1 1] |} ] |}
           {| points := [pt 0 0; pt 1 1] |} (key ESC)).
  - reflexivity.
  - reflexivity.
  - discriminate.
  - intros h [].
  - reflexivity.
Defined.

(** *** A confirm that fails *)

Lemma lookup_object_set_frame c fr h :
  GreasePencil.lookup_object (set_frame c fr) h = GreasePencil.lookup_object c h.
Proof. reflexivity. Qed.

(** The warp of [finish] touches the frame only. *)
Lemma apply_warp_objects s c :
  data_objects (snd (apply_warp s c)) = data_objects c /\
  collection_objects (snd (apply_warp s c)) = collection_objects c.
Proof.
  unfold apply_warp.
  destruct (_handles s) as [hs|]; [|auto].
  destruct (handle_locations c hs) as [dst|ex]; [|auto].
  destruct (_src_bbox s) as [src|]; [|auto].
  destruct (compute_matrix src dst) as [mat|ex]; [|auto].
  destruct (frame c) as [f|]; [|auto].
  destruct (strokes f) as [|st rest]; [auto|].
  destruct (warp_points mat (points st)) as [r pts]. cbn. auto.
Qed.

(** X19: a confirm removes all the handles or none.  From every state
    whose handles are live, [modal] on RET or NUMPAD_ENTER either returns
    FINISHED, with every handle removed and [_handles] reset to None, or
    raises, and then the objects of the data and of the collection are
    all as they were and [_handles] still holds the handles: after a
    failed warp the four empties stay in the scene. *)
Theorem confirm_all_or_nothing
  (s : self) (c : context) (hs : list nat) (e : event) :
  _handles s = Some hs -> handles_live c hs ->
  type e = RET \/ type e = NUMPAD_ENTER ->
  let out := modal s c e in
  (fst out = Ok FINISHED /\
   _handles (fst (snd out)) = None /\
   (forall h, In h hs -> GreasePencil.lookup_object (snd (snd out)) h = None) /\
   (forall h, ~ In h hs ->
              GreasePencil.lookup_object (snd (snd out)) h
              = GreasePencil.lookup_object c h))
  \/
  (exists ex, fst out = Raise ex /\
   _handles (fst (snd out)) = Some hs /\
   data_objects (snd (snd out)) = data_objects c /\
   collection_objects (snd (snd out)) = collection_objects c).
Proof.
  intros H LV T. cbv zeta. rewrite (@modal_on_confirm s c e T).
  unfold finish. cbn [set_confirm _confirm _handles].
  destruct (apply_warp_objects (set_confirm s true) c) as [D C].
  destruct (apply_warp (set_confirm s true) c) as [[[]|ex] c1] eqn:W;
    cbn [snd] in D, C.
  - left. rewrite H.
    assert (LV1 : handles_live c1 hs).
    { destruct LV as [ND Live]. split; [exact ND|].
      intros h Hin. unfold GreasePencil.lookup_object. rewrite D.
      exact (Live h Hin). }
    destruct (@remove_handles_ok hs c1 LV1) as (c2 & R & _ & Gone & Kept).
    rewrite R. cbn [fst snd set_handles _handles].
    split; [reflexivity|]. split; [reflexivity|]. split; [exact Gone|].
    intros h Hn. rewrite (Kept h Hn).
    unfold GreasePencil.lookup_object. now rewrite D.
  - right. exists ex. cbn [fst snd set_confirm _handles]. auto.
Qed.

Lemma confirm_all_or_nothing_witness :
  let out := modal self_unit_square ctx_dragged (key RET) in
  (fst out = Ok FINISHED /\
   _handles (fst (snd out)) = None /\
   (forall h, In h [0; 1; 2; 3]%nat ->
              GreasePencil.lookup_object (snd (snd out)) h = None) /\
   (forall h, ~ In h [0; 1; 2; 3]%nat ->
              GreasePencil.lookup_object (snd (snd out)) h
              = GreasePencil.lookup_object ctx_dragged h))
  \/
  (exists ex, fst out = Raise ex /\
   _handles (fst (snd out)) = Some [0; 1; 2; 3]%nat /\
   data_objects (snd (snd out)) = data_objects ctx_dragged /\
   collection_objects (snd (snd out)) = collection_objects ctx_dragged).
Proof.
  apply (@confirm_all_or_nothing self_unit_square ctx_dragged
           [0; 1; 2; 3]%nat (key RET)).
  - reflexivity.
  - split; [repeat constructor; cbn [In]; lia|].
    intros h [<-|[<-|[<-|[<-|[]]]]]; discriminate.
  - left. reflexivity.
Defined.

End WarpMore.
